(** * fiber-vhosts2: the hostname registry and the vhost dispatcher

    A shallow embedding of [vhosts.go]: the [VhostsManager] registry
    ([AddHostname], [RemoveHostname], [GetHostname], [GetHostnames],
    [SetDefaultApp], [findMatchingApp]) and the [VhostMiddleware]
    dispatcher, followed by the properties of the design document that
    concern them. *)

From Stdlib Require Import String Ascii List Bool Arith Lia.
From stdpp Require Import base option list gmap strings.

Local Open Scope string_scope.
Local Open Scope list_scope.
Local Open Scope stdpp_scope.

(** ** Go's [strings] package, as far as [vhosts.go] uses it *)

Module strings.

(** [strings.HasPrefix(s, prefix)]: [s] begins with [prefix]. *)
Fixpoint HasPrefix (s prefix : string) : bool :=
  match prefix, s with
  | EmptyString, _ => true
  | String _ _, EmptyString => false
  | String p prefix', String c s' => Ascii.eqb c p && HasPrefix s' prefix'
  end.

(** The slice expression [s[n:]].  Go panics when [n > len(s)]; both call
    sites are guarded by [HasPrefix(hostname, "*.")], so that [n = 2] is in
    range there (lemma [HasPrefix_wildcard_length]). *)
Fixpoint slice_from (s : string) (n : nat) {struct n} : string :=
  match n with
  | 0 => s
  | S k => match s with
           | String _ s' => slice_from s' k
           | EmptyString => EmptyString
           end
  end.

(** [strings.Split(s, sep)] for a separator of one byte, which is how the
    only call site, [strings.Split(hostname, ".")], uses it: the pieces of
    [s] between the occurrences of [sep]; a string without [sep] is its
    own single piece. *)
Fixpoint Split (s : string) (sep : ascii) : list string :=
  match s with
  | EmptyString => [EmptyString]
  | String c s' =>
      if Ascii.eqb c sep then EmptyString :: Split s' sep
      else match Split s' sep with
           | [] => [String c EmptyString]
           | piece :: pieces => String c piece :: pieces
           end
  end.

(** [strings.Join(elems, sep)]. *)
Fixpoint Join (elems : list string) (sep : string) : string :=
  match elems with
  | [] => EmptyString
  | [e] => e
  | e :: rest => e +:+ sep +:+ Join rest sep
  end.

End strings.

Definition dot : ascii := "."%char.

(** ** The collaborators: fiber applications, requests, the logger *)

(** A [*fiber.App]: [None] is Go's [nil], [Some a] the address of an
    application object.  The registry stores and returns these references
    and never looks inside. *)
Definition App := positive.
Definition AppPtr := option App.

(** What [app.Use] can put on an application's handler stack: the handler
    made by [recover.New()], or a handler of the application's owner. *)
Inductive Handler :=
  | recoverHandler
  | ownHandler (id : nat).

(** A [*fiber.Ctx]: the request; [c.Hostname()] is all the dispatcher
    reads from it. *)
Record Ctx := { Hostname : string; request : nat }.

(** Go's [error] values that [vhosts.go] returns. *)
Inductive error :=
  | nil_error
  | ErrInvalidHostname
  | ErrHostExists
  | ErrHostNotFound
  | ErrNotFound.

(** ** The registry *)

(** The fields of the struct but for [mu sync.RWMutex]: what the methods do
    to the mutex is recorded in the trace of the world (see Effects). *)
Record VhostsManager := {
  hosts : gmap string AppPtr;
  wildcards : gmap string AppPtr;
  defaultApp : AppPtr;
  enableLog : bool
}.

Record Config := {
  DefaultApp : AppPtr;
  EnableLogging : bool;
  RecoverFromPanic : bool
}.

(** [NewVhostsManager(config ...Config)]: the variadic argument is a list. *)
Definition NewVhostsManager (config : list Config) : VhostsManager :=
  let m := {| hosts := ∅; wildcards := ∅; defaultApp := None; enableLog := false |} in
  match config with
  | c0 :: _ =>
      {| hosts := hosts m; wildcards := wildcards m;
         defaultApp := DefaultApp c0; enableLog := EnableLogging c0 |}
  | [] => m
  end.

(** ** Effects

    The methods run in a state monad over a [World]: the manager the
    receiver points to, the handler stacks of the fiber applications (shared
    objects the registry refers to by address), and the trace of what the
    code did to its mutex, its fields, the logger and the applications. *)

Inductive MutexOp := Lock | Unlock | RLock | RUnlock.

Inductive Field := f_hosts | f_wildcards | f_defaultApp | f_enableLog.

Inductive Event :=
  | EvMu (op : MutexOp)                 (* m.mu.Lock() and the like *)
  | EvRead (f : Field)
  | EvWrite (f : Field)
  | EvInfof (hostname : string)         (* log.Infof *)
  | EvWarnf (hostname : string)         (* log.Warnf *)
  | EvUse (a : App) (h : Handler)       (* app.Use(h) *)
  | EvServe (a : App) (stack : list Handler) (c : Ctx).
                                        (* app.Handler()(c.Context()) *)

Record World := {
  manager : VhostsManager;
  apps : gmap App (list Handler);
  trace : list Event
}.

Definition M (A : Type) : Type := World → A * World.

Definition ret {A} (x : A) : M A := λ w, (x, w).
Definition bind {A B} (c : M A) (k : A → M B) : M B :=
  λ w, let '(x, w') := c w in k x w'.

Notation "x <- c ;; k" := (bind c (λ x, k))
  (at level 100, c at next level, right associativity).
Notation "c ;; k" := (bind c (λ _, k))
  (at level 100, right associativity).

(** [defer d] at the head of a body: [d] runs when the body returns. *)
Definition defer {A} (d : M unit) (body : M A) : M A :=
  x <- body ;; d ;; ret x.

Definition when (b : bool) (c : M unit) : M unit := if b then c else ret tt.

Definition emit (e : Event) : M unit :=
  λ w, (tt, {| manager := manager w; apps := apps w; trace := trace w ++ [e] |}).

Definition modify_manager (f : VhostsManager → VhostsManager) : M unit :=
  λ w, (tt, {| manager := f (manager w); apps := apps w; trace := trace w |}).

Definition mu (op : MutexOp) : M unit := emit (EvMu op).

(** The comma-ok map read [app, exists := mp[key]]. *)
Definition comma_ok (mp : gmap string AppPtr) (key : string) : AppPtr * bool :=
  match mp !! key with
  | Some app => (app, true)
  | None => (None, false)
  end.

Definition hosts_get (key : string) : M (AppPtr * bool) :=
  emit (EvRead f_hosts) ;; λ w, (comma_ok (hosts (manager w)) key, w).

Definition wildcards_get (key : string) : M (AppPtr * bool) :=
  emit (EvRead f_wildcards) ;; λ w, (comma_ok (wildcards (manager w)) key, w).

Definition hosts_keys : M (list string) :=
  emit (EvRead f_hosts) ;; λ w, ((map_to_list (hosts (manager w))).*1, w).

Definition defaultApp_get : M AppPtr :=
  emit (EvRead f_defaultApp) ;; λ w, (defaultApp (manager w), w).

Definition enableLog_get : M bool :=
  emit (EvRead f_enableLog) ;; λ w, (enableLog (manager w), w).

Definition hosts_update (f : gmap string AppPtr → gmap string AppPtr) : M unit :=
  emit (EvWrite f_hosts) ;;
  modify_manager (λ m, {| hosts := f (hosts m); wildcards := wildcards m;
                          defaultApp := defaultApp m; enableLog := enableLog m |}).

Definition wildcards_update (f : gmap string AppPtr → gmap string AppPtr) : M unit :=
  emit (EvWrite f_wildcards) ;;
  modify_manager (λ m, {| hosts := hosts m; wildcards := f (wildcards m);
                          defaultApp := defaultApp m; enableLog := enableLog m |}).

Definition defaultApp_set (app : AppPtr) : M unit :=
  emit (EvWrite f_defaultApp) ;;
  modify_manager (λ m, {| hosts := hosts m; wildcards := wildcards m;
                          defaultApp := app; enableLog := enableLog m |}).

(** The handler stack of an application; one that nothing was put on yet
    has the empty stack. *)
Definition stack_of (σ : gmap App (list Handler)) (a : App) : list Handler :=
  default [] (σ !! a).

(** [app.Use(h)]: [h] goes on the stack of the application [a] points to. *)
Definition app_Use (a : App) (h : Handler) : M unit :=
  emit (EvUse a h) ;;
  λ w, (tt, {| manager := manager w;
               apps := <[a := stack_of (apps w) a ++ [h]]> (apps w);
               trace := trace w |}).

(** [app.Handler()(c.Context())]: the application serves the request with
    the stack it has at that moment. *)
Definition app_Handler (a : App) (c : Ctx) : M unit :=
  λ w, emit (EvServe a (stack_of (apps w) a) c) w.

(** ** The methods of [*VhostsManager] *)

Import strings.

Definition AddHostname (hostname : string) (app : AppPtr) : M error :=
  if decide (hostname = "") then ret ErrInvalidHostname else
  mu Lock ;;
  defer (mu Unlock) (
    if HasPrefix hostname "*." then
      let suffix := slice_from hostname 2 in
      r <- wildcards_get suffix ;;
      if r.2 then ret ErrHostExists else
      wildcards_update (insert suffix app) ;;
      ret nil_error
    else
      r <- hosts_get hostname ;;
      if r.2 then ret ErrHostExists else
      hosts_update (insert hostname app) ;;
      ret nil_error).

Definition RemoveHostname (hostname : string) : M error :=
  mu Lock ;;
  defer (mu Unlock) (
    if HasPrefix hostname "*." then
      let suffix := slice_from hostname 2 in
      r <- wildcards_get suffix ;;
      if negb r.2 then ret ErrHostNotFound else
      wildcards_update (delete suffix) ;;
      ret nil_error
    else
      r <- hosts_get hostname ;;
      if negb r.2 then ret ErrHostNotFound else
      hosts_update (delete hostname) ;;
      ret nil_error).

Definition GetHostname (hostname : string) : M (AppPtr * bool) :=
  mu RLock ;;
  defer (mu RUnlock) (
    r <- hosts_get hostname ;;
    ret (r.1, r.2)).

Definition GetHostnames : M (list string) :=
  mu RLock ;;
  defer (mu RUnlock) hosts_keys.

Definition SetDefaultApp (app : AppPtr) : M unit :=
  mu Lock ;;
  defer (mu Unlock) (defaultApp_set app).

Definition findMatchingApp (hostname : string) : M AppPtr :=
  (* First try exact match *)
  r <- hosts_get hostname ;;
  if r.2 then ret r.1 else
  (* Then try wildcard match *)
  let parts := Split hostname dot in
  found <- (if Nat.ltb 1 (List.length parts) then
              let domain := Join (drop 1 parts) "." in
              r <- wildcards_get domain ;;
              ret (if r.2 then Some r.1 else None)
            else ret None) ;;
  match found with
  | Some app => ret app
  | None => defaultApp_get
  end.

(** ** The dispatcher: the handler that [VhostMiddleware(manager)] returns *)

Definition VhostMiddleware (c : Ctx) : M error :=
  let hostname := Hostname c in
  log <- enableLog_get ;;
  when log (emit (EvInfof hostname)) ;;
  app <- findMatchingApp hostname ;;
  match app with
  | None =>
      log <- enableLog_get ;;
      when log (emit (EvWarnf hostname)) ;;
      ret ErrNotFound
  | Some a =>
      (* Wrap the handler with panic recovery if enabled *)
      log <- enableLog_get ;;
      when log (app_Use a recoverHandler) ;;
      app_Handler a c ;;
      ret nil_error
  end.

(** ** Running the methods *)

(** What a call returns, the world it leaves, and the events it adds to
    the trace. *)
Definition result {A} (c : M A) (w : World) : A := (c w).1.
Definition after {A} (c : M A) (w : World) : World := (c w).2.
Definition events {A} (c : M A) (w : World) : list Event :=
  drop (List.length (trace w)) (trace (after c w)).

(** The world a program starts in: a manager fresh from
    [NewVhostsManager], applications with the stacks [σ], nothing done yet. *)
Definition new_world (config : list Config) (σ : gmap App (list Handler)) : World :=
  {| manager := NewVhostsManager config; apps := σ; trace := [] |}.

(** The calls a client of the package can make, and the worlds they lead
    to from a fresh manager. *)
Inductive Call :=
  | CallAddHostname (hostname : string) (app : AppPtr)
  | CallRemoveHostname (hostname : string)
  | CallGetHostname (hostname : string)
  | CallGetHostnames
  | CallSetDefaultApp (app : AppPtr)
  | CallVhostMiddleware (c : Ctx).

Definition call (k : Call) : M unit :=
  match k with
  | CallAddHostname hostname app => AddHostname hostname app ;; ret tt
  | CallRemoveHostname hostname => RemoveHostname hostname ;; ret tt
  | CallGetHostname hostname => GetHostname hostname ;; ret tt
  | CallGetHostnames => GetHostnames ;; ret tt
  | CallSetDefaultApp app => SetDefaultApp app
  | CallVhostMiddleware c => VhostMiddleware c ;; ret tt
  end.

Inductive reachable : World → Prop :=
  | reachable_new config σ : reachable (new_world config σ)
  | reachable_call w k : reachable w → reachable (after (call k) w).

(** ** The vocabulary of the design document *)

(** [contains s c]: the byte [c] occurs in [s]. *)
Fixpoint contains (s : string) (c : ascii) : bool :=
  match s with
  | EmptyString => false
  | String x s' => Ascii.eqb x c || contains s' c
  end.

(** "An entry, exact or wildcard, matching this key after normalization":
    a hostname ["*." ++ suffix] is bound when [suffix] is a wildcard key,
    any other hostname when it is an exact key. *)
Definition has_binding (m : VhostsManager) (hostname : string) : Prop :=
  (∃ suffix, hostname = "*." +:+ suffix ∧ is_Some (wildcards m !! suffix)) ∨
  ((∀ suffix, hostname ≠ "*." +:+ suffix) ∧ is_Some (hosts m !! hostname)).

(** The handler invocations in a trace: which application served which
    request. *)
Fixpoint served (evs : list Event) : list (App * Ctx) :=
  match evs with
  | [] => []
  | EvServe a _ c :: evs' => (a, c) :: served evs'
  | _ :: evs' => served evs'
  end.

(** The applications a trace puts the recovery handler on. *)
Fixpoint recovered (evs : list Event) : list App :=
  match evs with
  | [] => []
  | EvUse a recoverHandler :: evs' => a :: recovered evs'
  | _ :: evs' => recovered evs'
  end.

(** What the calling goroutine holds of [m.mu]. *)
Inductive Held := NotHeld | HeldShared | HeldExclusive.

(** The fields that some method writes after construction; [enableLog] is
    set by [NewVhostsManager] only. *)
Definition shared_mutable (f : Field) : bool :=
  match f with
  | f_enableLog => false
  | _ => true
  end.

(** The lock discipline on a trace: a shared mutable field is read with
    the lock held, shared or exclusive, and written with it held
    exclusively. *)
Fixpoint guarded_from (held : Held) (evs : list Event) : bool :=
  match evs with
  | [] => true
  | EvMu Lock :: evs' => guarded_from HeldExclusive evs'
  | EvMu RLock :: evs' => guarded_from HeldShared evs'
  | EvMu Unlock :: evs' | EvMu RUnlock :: evs' => guarded_from NotHeld evs'
  | EvRead f :: evs' =>
      (negb (shared_mutable f) || match held with NotHeld => false | _ => true end)
      && guarded_from held evs'
  | EvWrite f :: evs' =>
      match held with HeldExclusive => true | _ => false end
      && guarded_from held evs'
  | _ :: evs' => guarded_from held evs'
  end.

Definition guarded (evs : list Event) : bool := guarded_from NotHeld evs.

(** The mutex operations in a trace, in order. *)
Fixpoint mutex_ops (evs : list Event) : list MutexOp :=
  match evs with
  | [] => []
  | EvMu op :: evs' => op :: mutex_ops evs'
  | _ :: evs' => mutex_ops evs'
  end.

(** The same world with the manager's logging flag set to [b]. *)
Definition with_enableLog (b : bool) (w : World) : World :=
  {| manager := {| hosts := hosts (manager w); wildcards := wildcards (manager w);
                   defaultApp := defaultApp (manager w); enableLog := b |};
     apps := apps w; trace := trace w |}.

(** Adding twice and looking up in between, as one program. *)
Definition add_twice (h : string) (H H' : AppPtr) :
    M (error * (AppPtr * bool) * error * (AppPtr * bool)) :=
  e1 <- AddHostname h H ;;
  l1 <- GetHostname h ;;
  e2 <- AddHostname h H' ;;
  l2 <- GetHostname h ;;
  ret (e1, l1, e2, l2).

(** Adding and removing again, with a lookup at the end, as one program. *)
Definition remove_after_add (h : string) (H : AppPtr) : M (error * (AppPtr * bool)) :=
  AddHostname h H ;;
  e <- RemoveHostname h ;;
  l <- GetHostname h ;;
  ret (e, l).

(** The keys of the exact map are hostnames that [AddHostname] takes for
    exact ones: not empty, and not starting with ["*."]. *)
Definition plain_key (key : string) : Prop :=
  key ≠ "" ∧ HasPrefix key "*." = false.

Definition exact_keys_plain (m : VhostsManager) : Prop :=
  ∀ key, is_Some (hosts m !! key) → plain_key key.

(** The world [w] with the events [evs] added to its trace. *)
Definition logged (w : World) (evs : list Event) : World :=
  {| manager := manager w; apps := apps w; trace := trace w ++ evs |}.

(** Configurations and a request to run the dispatcher on: the recovery
    flag alone, the logging flag alone. *)
Definition recover_only : Config :=
  {| DefaultApp := None; EnableLogging := false; RecoverFromPanic := true |}.
Definition logging_only : Config :=
  {| DefaultApp := None; EnableLogging := true; RecoverFromPanic := false |}.
Definition example_request : Ctx :=
  {| Hostname := "example.com"; request := 0 |}.

(** A client's calls, one after the other. *)
Definition run_calls (ks : list Call) (w : World) : World :=
  foldl (λ w k, after (call k) w) w ks.

(** The dispatcher on one request after the other. *)
Fixpoint dispatch_all (cs : list Ctx) : M (list error) :=
  match cs with
  | [] => ret []
  | c :: cs' =>
      e <- VhostMiddleware c ;;
      es <- dispatch_all cs' ;;
      ret (e :: es)
  end.

(** The records a trace sends to the logger. *)
Fixpoint log_records (evs : list Event) : list Event :=
  match evs with
  | [] => []
  | EvInfof h :: evs' => EvInfof h :: log_records evs'
  | EvWarnf h :: evs' => EvWarnf h :: log_records evs'
  | _ :: evs' => log_records evs'
  end.

(** The set-up of the package's example program, for any two hostnames
    and three applications: an exact entry, a wildcard entry and a default
    handler. *)
Definition example_setup (exact suffix : string) (A B D : AppPtr) : M unit :=
  AddHostname exact A ;;
  AddHostname ("*." +:+ suffix) B ;;
  SetDefaultApp D.

(** ** The first version of the package

    The earlier [vhosts.go]: a manager with the exact map only, an
    [AddHostname] that cannot fail, and a dispatcher that resolves through
    [GetHostname].  Its struct has the fields [mu] and [hosts]; it is
    embedded in the record above, whose other fields these methods never
    touch.  Its [GetHostname] is, word for word, the one above. *)

(** How a handler ends: it returns an error value, or it panics (here: a
    method call through a [nil] [*fiber.App]). *)
Inductive outcome :=
  | returns (e : error)
  | panics.

Module v1.

Definition NewVhostsManager : VhostsManager :=
  {| hosts := ∅; wildcards := ∅; defaultApp := None; enableLog := false |}.

Definition AddHostname (hostname : string) (app : AppPtr) : M unit :=
  mu Lock ;;
  defer (mu Unlock) (hosts_update (insert hostname app)).

Definition VhostMiddleware (c : Ctx) : M outcome :=
  let hostname := Hostname c in
  r <- GetHostname hostname ;;
  if r.2 then
    match r.1 with
    | Some a =>
        app_Handler a c ;; (* Call sub-app handler *)
        ret (returns nil_error)
    | None => ret panics
    end
  else ret (returns ErrNotFound). (* Return 404 if no matching hostname found *)

End v1.

(** ** Proof steps *)

Ltac unfold_M :=
  unfold events, result, after, call, AddHostname, RemoveHostname, GetHostname,
    GetHostnames, SetDefaultApp, VhostMiddleware, findMatchingApp,
    defer, when, hosts_get, wildcards_get, hosts_keys, defaultApp_get,
    enableLog_get, hosts_update, wildcards_update, defaultApp_set,
    app_Use, app_Handler, mu, emit, modify_manager, bind, ret in *.

(** One branching point of a method body: the test is decided and the
    body runs on. *)
Ltac branch_M :=
  match goal with
  | |- context [decide (?h = EmptyString)] => destruct (decide (h = EmptyString))
  | |- context [HasPrefix ?h ?p] => destruct (HasPrefix h p) eqn:?
  | |- context [comma_ok ?mp ?k] =>
      unfold comma_ok; destruct (mp !! k) eqn:?
  | |- context [Nat.ltb 1 ?n] => destruct (Nat.ltb 1 n) eqn:?
  | |- context [enableLog ?m] => destruct (enableLog m) eqn:?
  | |- context [defaultApp ?m] => destruct (defaultApp m) eqn:?
  | |- context [match ?a with Some _ => _ | None => _ end] => is_var a; destruct a
  end; cbn.

Ltac run_M := unfold_M; cbn; repeat branch_M.

(** ** Facts about the string functions *)


Lemma HasPrefix_wildcard_iff (h : string) :
  HasPrefix h "*." = true ↔ ∃ suffix, h = "*." +:+ suffix.
Proof.
  split.
  - destruct h as [|a [|b h]]; cbn; try discriminate.
    + by rewrite andb_false_r.
    + destruct (Ascii.eqb_spec a "*") as [->|]; [|discriminate].
      destruct (Ascii.eqb_spec b ".") as [->|]; [|discriminate].
      intros _. by exists h.
  - intros [s ->]. cbn. by destruct s.
Qed.

Lemma slice_from_wildcard (suffix : string) :
  slice_from ("*." +:+ suffix) 2 = suffix.
Proof. reflexivity. Qed.

Lemma HasPrefix_wildcard_length (h : string) :
  HasPrefix h "*." = true → (2 ≤ String.length h)%nat.
Proof.
  intros [s ->]%HasPrefix_wildcard_iff.
  change (2 ≤ S (S (String.length s)))%nat. lia.
Qed.

Lemma HasPrefix_wildcard_false (h : string) :
  HasPrefix h "*." = false ↔ ∀ suffix, h ≠ "*." +:+ suffix.
Proof.
  split.
  - intros Hf s Hs. assert (HasPrefix h "*." = true) as Ht
      by (apply HasPrefix_wildcard_iff; eauto). congruence.
  - intros Hn. destruct (HasPrefix h "*.") eqn:E; [|done].
    apply HasPrefix_wildcard_iff in E as [s ->]. by destruct (Hn s).
Qed.

Lemma append_nil (s : string) : "" +:+ s = s.
Proof. reflexivity. Qed.

Lemma append_cons (c : ascii) (s t : string) :
  String c s +:+ t = String c (s +:+ t).
Proof. reflexivity. Qed.

Section split_at_a_byte.

Variable sep : ascii.

Lemma Split_nonempty (s : string) : Split s sep ≠ [].
Proof.
  destruct s as [|c s]; cbn; [done|].
  destruct (Ascii.eqb c sep); [done|]. by destruct (Split s sep).
Qed.

Lemma Split_no_sep (s : string) :
  contains s sep = false → Split s sep = [s].
Proof.
  induction s as [|c s IH]; cbn; [done|].
  intros [Hc Hs]%orb_false_iff. rewrite Hc, (IH Hs). done.
Qed.

Lemma Split_label (label rest : string) :
  contains label sep = false →
  Split (label +:+ String sep rest) sep = label :: Split rest sep.
Proof.
  induction label as [|c l IH]; rewrite ?append_nil, ?append_cons; cbn.
  - intros _. by rewrite Ascii.eqb_refl.
  - intros [Hc Hl]%orb_false_iff. rewrite Hc, (IH Hl). done.
Qed.

Lemma Join_Split (s : string) :
  Join (Split s sep) (String sep "") = s.
Proof.
  induction s as [|c s IH]; cbn [Split]; [done|].
  destruct (Ascii.eqb_spec c sep) as [->|Hne].
  - pose proof (Split_nonempty s).
    cbn [Join]. destruct (Split s sep) eqn:E; [done|].
    rewrite IH. done.
  - destruct (Split s sep) as [|p ps] eqn:E; [by destruct (Split_nonempty s)|].
    cbn [Join] in *. destruct ps; cbn in *; by rewrite <- IH.
Qed.

Lemma Split_length_contains (s : string) :
  Nat.ltb 1 (List.length (Split s sep)) = contains s sep.
Proof.
  induction s as [|c s IH]; cbn [Split contains]; [done|].
  destruct (Ascii.eqb c sep); cbn [orb].
  - pose proof (Split_nonempty s). by destruct (Split s sep).
  - rewrite <- IH. by destruct (Split s sep).
Qed.

(** Every hostname is a single label, or a first label, a dot and a rest. *)
Lemma leftmost_label (h : string) :
  contains h sep = false ∨
  ∃ label rest, h = label +:+ String sep rest ∧ contains label sep = false.
Proof.
  induction h as [|c h IH]; cbn; [by left|].
  destruct (Ascii.eqb_spec c sep) as [->|Hne]; cbn.
  - right. by exists "", h.
  - destruct IH as [->|(l & r & -> & Hl)]; [by left|].
    right. exists (String c l), r. split; [done|]. cbn.
    rewrite Hl. by apply Ascii.eqb_neq in Hne as ->.
Qed.

Lemma contains_label (label rest : string) :
  contains (label +:+ String sep rest) sep = true.
Proof.
  induction label as [|c l IH]; rewrite ?append_nil, ?append_cons; cbn.
  - by rewrite Ascii.eqb_refl.
  - rewrite IH. apply orb_true_r.
Qed.

End split_at_a_byte.

(** What [findMatchingApp] computes from a hostname with a dot: the
    hostname without its leftmost label. *)
Lemma Join_drop_Split (label rest : string) :
  contains label dot = false →
  Join (drop 1 (Split (label +:+ "." +:+ rest) dot)) "." = rest.
Proof.
  intros Hl. change ("." +:+ rest) with (String dot rest).
  rewrite (Split_label dot _ _ Hl). cbn [drop]. apply Join_Split.
Qed.

(** From here on the string functions are used through these facts. *)
#[local] Arguments Nat.ltb : simpl never.
#[local] Arguments HasPrefix : simpl never.
#[local] Arguments slice_from : simpl never.
#[local] Arguments Split : simpl never.
#[local] Arguments Join : simpl never.
#[local] Arguments findMatchingApp : simpl never.

(** ** The registry: [AddHostname], [RemoveHostname], [GetHostname] *)

Lemma drop_trace (t evs : list Event) : drop (List.length t) (t ++ evs) = evs.
Proof. apply drop_app_length. Qed.

Lemma manager_eta (m : VhostsManager) :
  {| hosts := hosts m; wildcards := wildcards m;
     defaultApp := defaultApp m; enableLog := enableLog m |} = m.
Proof. by destruct m. Qed.

Lemma has_binding_wildcard (m : VhostsManager) (h : string) :
  HasPrefix h "*." = true →
  has_binding m h ↔ is_Some (wildcards m !! slice_from h 2).
Proof.
  intros Hp. pose proof Hp as [s ->]%HasPrefix_wildcard_iff.
  rewrite slice_from_wildcard. split.
  - intros [(s' & Hs & Hb)|[Hn _]].
    + by simplify_eq.
    + by destruct (Hn s).
  - intros Hb. left. eauto.
Qed.

Lemma has_binding_exact (m : VhostsManager) (h : string) :
  HasPrefix h "*." = false →
  has_binding m h ↔ is_Some (hosts m !! h).
Proof.
  intros Hp. pose proof (proj1 (HasPrefix_wildcard_false h) Hp) as Hn. split.
  - intros [(s' & Hs & _)|[_ Hb]]; [by destruct (Hn s')|done].
  - intros Hb. right. eauto.
Qed.

(** C7. [AddHostname("", H)] returns [ErrInvalidHostname] in every world
    and changes nothing: the exact map, the wildcard map and the default
    handler are those before the call, and not even the lock is taken. *)
Theorem AddHostname_empty_rejected (w : World) (H : AppPtr) :
  result (AddHostname "" H) w = ErrInvalidHostname ∧
  after (AddHostname "" H) w = w ∧
  hosts (manager (after (AddHostname "" H) w)) = hosts (manager w) ∧
  wildcards (manager (after (AddHostname "" H) w)) = wildcards (manager w) ∧
  defaultApp (manager (after (AddHostname "" H) w)) = defaultApp (manager w).
Proof. by run_M. Qed.

(** C5. For a non-empty hostname, [AddHostname] returns [ErrHostExists]
    exactly when the hostname already has a binding (a wildcard binding
    for the suffix of a hostname ["*." ++ suffix], an exact binding for any
    other hostname), and then the manager and the applications are as
    before: the existing binding is not overwritten. *)
Theorem AddHostname_exists_iff (w : World) (hostname : string) (app : AppPtr) :
  hostname ≠ "" →
  (result (AddHostname hostname app) w = ErrHostExists
     ↔ has_binding (manager w) hostname) ∧
  (result (AddHostname hostname app) w = ErrHostExists →
     manager (after (AddHostname hostname app) w) = manager w ∧
     apps (after (AddHostname hostname app) w) = apps w).
Proof.
  intros Hne. unfold_M. cbn.
  destruct (decide (hostname = "")) as [|_]; [done|]. cbn.
  destruct (HasPrefix hostname "*.") eqn:Hp; cbn; unfold comma_ok.
  - rewrite (has_binding_wildcard _ _ Hp).
    destruct (wildcards (manager w) !! slice_from hostname 2); cbn.
    + split; [split; eauto|done].
    + split; [split; [done|by intros []]|done].
  - rewrite (has_binding_exact _ _ Hp).
    destruct (hosts (manager w) !! hostname); cbn.
    + split; [split; eauto|done].
    + split; [split; [done|by intros []]|done].
Qed.

Lemma AddHostname_exists_iff_witness :
  let w := after (AddHostname "*.example.org" (Some 1%positive)) (new_world [] ∅) in
  "*.example.org" ≠ "" ∧
  result (AddHostname "*.example.org" (Some 2%positive)) w = ErrHostExists ∧
  manager (after (AddHostname "*.example.org" (Some 2%positive)) w) = manager w.
Proof.
  assert ("*.example.org" ≠ "") as Hne by done.
  split; [exact Hne|].
  pose proof (AddHostname_exists_iff
    (after (AddHostname "*.example.org" (Some 1%positive)) (new_world [] ∅))
    "*.example.org" (Some 2%positive) Hne) as [Hiff Hsame].
  assert (result (AddHostname "*.example.org" (Some 2%positive))
            (after (AddHostname "*.example.org" (Some 1%positive)) (new_world [] ∅))
          = ErrHostExists) as Hr by (vm_compute; reflexivity).
  split; [exact Hr|]. exact (proj1 (Hsame Hr)).
Defined.

(** C6. For a non-empty hostname [h] that does not start with ["*."] and is
    not registered, [AddHostname(h, H)] succeeds and [GetHostname(h)] then
    returns [(H, true)]; a second [AddHostname(h, H')] returns
    [ErrHostExists] and [GetHostname(h)] still returns [(H, true)]. *)
Theorem add_then_lookup (w : World) (h : string) (H H' : AppPtr) :
  h ≠ "" →
  (∀ suffix, h ≠ "*." +:+ suffix) →
  hosts (manager w) !! h = None →
  result (add_twice h H H') w = (nil_error, (H, true), ErrHostExists, (H, true)).
Proof.
  intros Hne Hnw%HasPrefix_wildcard_false Hfree.
  unfold add_twice. unfold_M. cbn.
  destruct (decide (h = "")) as [|_]; [done|]. cbn.
  rewrite Hnw. cbn. unfold comma_ok. rewrite Hfree. cbn.
  rewrite !lookup_insert_eq. cbn. rewrite ?lookup_insert_eq. done.
Qed.

Lemma add_then_lookup_witness :
  result (add_twice "example.com" (Some 1%positive) (Some 2%positive)) (new_world [] ∅)
  = (nil_error, (Some 1%positive, true), ErrHostExists, (Some 1%positive, true)).
Proof.
  apply (add_then_lookup (new_world [] ∅) "example.com").
  - done.
  - by apply HasPrefix_wildcard_false.
  - apply lookup_empty.
Defined.

(** C10. The registry operations touch one piece of state each:
    [AddHostname] and [RemoveHostname] on a hostname ["*." ++ suffix] leave
    the exact map and the default handler as they were, on any other
    hostname they leave the wildcard map and the default handler as they
    were, and [SetDefaultApp] leaves both maps as they were. *)
Theorem registry_frame (w : World) (h : string) (app : AppPtr) :
  ((∃ suffix, h = "*." +:+ suffix) →
     hosts (manager (after (AddHostname h app) w)) = hosts (manager w) ∧
     defaultApp (manager (after (AddHostname h app) w)) = defaultApp (manager w) ∧
     hosts (manager (after (RemoveHostname h) w)) = hosts (manager w) ∧
     defaultApp (manager (after (RemoveHostname h) w)) = defaultApp (manager w)) ∧
  ((∀ suffix, h ≠ "*." +:+ suffix) →
     wildcards (manager (after (AddHostname h app) w)) = wildcards (manager w) ∧
     defaultApp (manager (after (AddHostname h app) w)) = defaultApp (manager w) ∧
     wildcards (manager (after (RemoveHostname h) w)) = wildcards (manager w) ∧
     defaultApp (manager (after (RemoveHostname h) w)) = defaultApp (manager w)) ∧
  (hosts (manager (after (SetDefaultApp app) w)) = hosts (manager w) ∧
   wildcards (manager (after (SetDefaultApp app) w)) = wildcards (manager w)).
Proof.
  split_and!.
  - intros Hp%HasPrefix_wildcard_iff. unfold_M. cbn. rewrite Hp. cbn.
    destruct (decide (h = "")); cbn; unfold comma_ok;
      by destruct (wildcards (manager w) !! slice_from h 2).
  - intros Hp%HasPrefix_wildcard_false. unfold_M. cbn. rewrite Hp. cbn.
    destruct (decide (h = "")); cbn; unfold comma_ok;
      by destruct (hosts (manager w) !! h).
  - done.
  - done.
Qed.

Lemma registry_frame_witness :
  let w := after (AddHostname "example.com" (Some 1%positive)) (new_world [] ∅) in
  hosts (manager (after (AddHostname "*.example.com" (Some 2%positive)) w)) = hosts (manager w) ∧
  wildcards (manager (after (RemoveHostname "example.com") w)) = wildcards (manager w).
Proof.
  intros w.
  destruct (registry_frame w "*.example.com" (Some 2%positive)) as (Hwild & _ & _).
  destruct (registry_frame w "example.com" None) as (_ & Hexact & _).
  split.
  - apply Hwild. by eexists.
  - apply Hexact. by apply HasPrefix_wildcard_false.
Defined.

(** ** Resolution: [findMatchingApp] *)

Lemma run_eq {A} (c : M A) (w : World) : c w = (result c w, after c w).
Proof. unfold result, after. by destruct (c w). Qed.

(** [findMatchingApp] only reads: it returns a handler and adds the reads
    to the trace. *)
Lemma findMatchingApp_run (w : World) (h : string) :
  findMatchingApp h w =
    match hosts (manager w) !! h with
    | Some app => (app, logged w [EvRead f_hosts])
    | None =>
        if Nat.ltb 1 (List.length (Split h dot)) then
          match wildcards (manager w) !! Join (drop 1 (Split h dot)) "." with
          | Some app => (app, logged w [EvRead f_hosts; EvRead f_wildcards])
          | None => (defaultApp (manager w),
                     logged w [EvRead f_hosts; EvRead f_wildcards; EvRead f_defaultApp])
          end
        else (defaultApp (manager w), logged w [EvRead f_hosts; EvRead f_defaultApp])
    end.
Proof.
  unfold logged. unfold_M. cbn. unfold comma_ok.
  destruct (hosts (manager w) !! h); cbn; [done|].
  destruct (Nat.ltb 1 _); cbn; [|by rewrite <- !app_assoc].
  destruct (wildcards (manager w) !! _); cbn; by rewrite <- !app_assoc.
Qed.

(** A hostname with a dot is looked up among the wildcards without its
    leftmost label. *)
Lemma findMatchingApp_dotted (w : World) (label rest : string) :
  contains label dot = false →
  hosts (manager w) !! (label +:+ "." +:+ rest) = None →
  result (findMatchingApp (label +:+ "." +:+ rest)) w =
    match wildcards (manager w) !! rest with
    | Some app => app
    | None => defaultApp (manager w)
    end.
Proof.
  intros Hl Hh. unfold result. rewrite findMatchingApp_run, Hh.
  rewrite Split_length_contains. change ("." +:+ rest) with (String dot rest).
  rewrite contains_label.
  change (String dot rest) with ("." +:+ rest). rewrite (Join_drop_Split _ _ Hl).
  by destruct (wildcards (manager w) !! rest).
Qed.

Lemma findMatchingApp_single_label (w : World) (h : string) :
  contains h dot = false →
  hosts (manager w) !! h = None →
  result (findMatchingApp h) w = defaultApp (manager w).
Proof.
  intros Hl Hh. unfold result.
  by rewrite findMatchingApp_run, Hh, Split_length_contains, Hl.
Qed.

(** C1. [findMatchingApp] returns the handler of the exact entry for the
    hostname when there is one; otherwise, for a hostname with a dot, the
    handler of the wildcard entry keyed by the hostname without its
    leftmost label when there is one; otherwise the default handler, which
    may be [nil].  So an exact entry for ["a.b.c"] wins over a wildcard
    entry for ["b.c"], and a hostname without a dot never matches a
    wildcard. *)
Theorem resolve_three_tier (w : World) (h : string) :
  let m := manager w in
  let r := result (findMatchingApp h) w in
  (∀ app, hosts m !! h = Some app → r = app) ∧
  (hosts m !! h = None →
     (∀ label rest app,
        h = label +:+ "." +:+ rest → contains label dot = false →
        wildcards m !! rest = Some app → r = app) ∧
     (∀ label rest,
        h = label +:+ "." +:+ rest → contains label dot = false →
        wildcards m !! rest = None → r = defaultApp m) ∧
     (contains h dot = false → r = defaultApp m)) ∧
  (∀ exact wild,
     hosts m !! "a.b.c" = Some exact → wildcards m !! "b.c" = Some wild →
     result (findMatchingApp "a.b.c") w = exact) ∧
  (contains h dot = false ∨
   ∃ label rest, h = label +:+ "." +:+ rest ∧ contains label dot = false).
Proof.
  cbn zeta. split_and!.
  - intros app Hh. unfold result. by rewrite findMatchingApp_run, Hh.
  - intros Hh. split_and!.
    + intros label rest app -> Hl Hw. by rewrite findMatchingApp_dotted, Hw.
    + intros label rest -> Hl Hw. by rewrite findMatchingApp_dotted, Hw.
    + intros Hl. by apply findMatchingApp_single_label.
  - intros exact wild Hh _. unfold result. by rewrite findMatchingApp_run, Hh.
  - apply leftmost_label.
Qed.

Lemma resolve_three_tier_witness :
  let w := {| manager := {| hosts := {["a.b.c" := Some 1%positive]};
                            wildcards := {["b.c" := Some 2%positive]};
                            defaultApp := Some 3%positive; enableLog := false |};
              apps := ∅; trace := [] |} in
  result (findMatchingApp "a.b.c") w = Some 1%positive ∧
  result (findMatchingApp "x.b.c") w = Some 2%positive ∧
  result (findMatchingApp "b.c") w = Some 3%positive ∧
  result (findMatchingApp "localhost") w = Some 3%positive.
Proof.
  intros w. split_and!.
  - destruct (resolve_three_tier w "a.b.c") as (Hexact & _).
    by apply Hexact.
  - destruct (resolve_three_tier w "x.b.c") as (_ & Hmiss & _).
    destruct Hmiss as (Hwild & _); [done|].
    by apply (Hwild "x" "b.c").
  - destruct (resolve_three_tier w "b.c") as (_ & Hmiss & _).
    destruct Hmiss as (_ & Hdefault & _); [done|].
    by apply (Hdefault "b" "c").
  - destruct (resolve_three_tier w "localhost") as (_ & Hmiss & _).
    destruct Hmiss as (_ & _ & Hsingle); [done|].
    by apply Hsingle.
Defined.

(** ** The dispatcher: [VhostMiddleware] *)

Lemma logged_logged (w : World) (evs evs' : list Event) :
  logged (logged w evs) evs' = logged w (evs ++ evs').
Proof. unfold logged. cbn. by rewrite app_assoc. Qed.

Lemma events_logged {A} (c : M A) (w : World) (evs : list Event) :
  after c w = logged w evs → events c w = evs.
Proof. unfold events. intros ->. apply drop_trace. Qed.

(** [findMatchingApp] leaves a world that differs in its trace only, by
    reads, and what it returns depends on the manager only. *)
Lemma findMatchingApp_after (w : World) (h : string) :
  ∃ fs, after (findMatchingApp h) w = logged w (EvRead <$> fs) ∧ fs ≠ [].
Proof.
  unfold after. rewrite findMatchingApp_run.
  destruct (hosts (manager w) !! h); [by exists [f_hosts]|].
  destruct (Nat.ltb 1 _); [|by exists [f_hosts; f_defaultApp]].
  destruct (wildcards (manager w) !! _);
    [by exists [f_hosts; f_wildcards]|by exists [f_hosts; f_wildcards; f_defaultApp]].
Qed.

Lemma findMatchingApp_result_logged (w : World) (evs : list Event) (h : string) :
  result (findMatchingApp h) (logged w evs) = result (findMatchingApp h) w.
Proof.
  unfold result. rewrite !findMatchingApp_run. cbn.
  repeat case_match; done.
Qed.

(** The dispatcher, case by case: what it returns and the world it
    leaves, given what [findMatchingApp] resolves the hostname to. *)
Lemma VhostMiddleware_miss (w : World) (c : Ctx) :
  result (findMatchingApp (Hostname c)) w = None →
  ∃ fs,
    VhostMiddleware c w =
      (ErrNotFound,
       logged w ((EvRead f_enableLog ::
                  if enableLog (manager w) then [EvInfof (Hostname c)] else [])
                 ++ (EvRead <$> fs)
                 ++ (EvRead f_enableLog ::
                     if enableLog (manager w) then [EvWarnf (Hostname c)] else []))).
Proof.
  intros Hr.
  destruct (findMatchingApp_after
              (logged w (EvRead f_enableLog ::
                 if enableLog (manager w) then [EvInfof (Hostname c)] else []))
              (Hostname c)) as (fs & Hfs & _).
  exists fs. unfold VhostMiddleware, bind, enableLog_get, when, emit, ret. cbn.
  destruct (enableLog (manager w)) eqn:Hlog; cbn.
  - fold (logged w [EvRead f_enableLog]). rewrite <- app_assoc. cbn.
    fold (logged w [EvRead f_enableLog; EvInfof (Hostname c)]).
    rewrite run_eq, findMatchingApp_result_logged, Hr, Hfs. unfold logged. cbn.
    rewrite Hlog. cbn. by rewrite <- !app_assoc.
  - fold (logged w [EvRead f_enableLog]).
    rewrite run_eq, findMatchingApp_result_logged, Hr, Hfs. unfold logged. cbn.
    rewrite Hlog. cbn. by rewrite <- !app_assoc.
Qed.

Lemma VhostMiddleware_hit (w : World) (c : Ctx) (a : App) :
  result (findMatchingApp (Hostname c)) w = Some a →
  ∃ fs,
    VhostMiddleware c w =
      (nil_error,
       if enableLog (manager w) then
         {| manager := manager w;
            apps := <[a := stack_of (apps w) a ++ [recoverHandler]]> (apps w);
            trace := trace w ++
              [EvRead f_enableLog; EvInfof (Hostname c)] ++ (EvRead <$> fs) ++
              [EvRead f_enableLog; EvUse a recoverHandler;
               EvServe a (stack_of (apps w) a ++ [recoverHandler]) c] |}
       else
         logged w ([EvRead f_enableLog] ++ (EvRead <$> fs) ++
                   [EvRead f_enableLog; EvServe a (stack_of (apps w) a) c])).
Proof.
  intros Hr.
  destruct (findMatchingApp_after
              (logged w (EvRead f_enableLog ::
                 if enableLog (manager w) then [EvInfof (Hostname c)] else []))
              (Hostname c)) as (fs & Hfs & _).
  exists fs. unfold VhostMiddleware, bind, enableLog_get, when, emit, ret,
    app_Use, app_Handler. cbn.
  destruct (enableLog (manager w)) eqn:Hlog; cbn.
  - fold (logged w [EvRead f_enableLog]). rewrite <- app_assoc. cbn.
    fold (logged w [EvRead f_enableLog; EvInfof (Hostname c)]).
    rewrite run_eq, findMatchingApp_result_logged, Hr, Hfs. unfold logged. cbn.
    rewrite Hlog. cbn. unfold stack_of at 2. rewrite lookup_insert_eq. cbn.
    by rewrite <- !app_assoc.
  - fold (logged w [EvRead f_enableLog]).
    rewrite run_eq, findMatchingApp_result_logged, Hr, Hfs. unfold logged. cbn.
    rewrite Hlog. cbn. by rewrite <- !app_assoc.
Qed.

Lemma VhostMiddleware_manager (w : World) (c : Ctx) :
  manager (after (VhostMiddleware c) w) = manager w.
Proof.
  unfold after.
  destruct (result (findMatchingApp (Hostname c)) w) as [a|] eqn:Hr.
  - destruct (VhostMiddleware_hit w c a Hr) as (fs & ->).
    by destruct (enableLog (manager w)).
  - by destruct (VhostMiddleware_miss w c Hr) as (fs & ->).
Qed.

(** ** Reachable worlds, and removal *)

Lemma after_discard {A} (c : M A) (w : World) :
  after (c ;; ret tt) w = after c w.
Proof. unfold after, bind, ret. by destruct (c w). Qed.

Lemma hosts_after_call (w : World) (k : Call) (key : string) :
  is_Some (hosts (manager (after (call k) w)) !! key) →
  is_Some (hosts (manager w) !! key) ∨ plain_key key.
Proof.
  destruct k as [h a|h|h| |a|c].
  1-5: run_M; eauto.
  - intros [<-|[_ ?]]%lookup_insert_is_Some; [by right|by left].
  - rewrite lookup_delete_is_Some. intros [_ ?]. eauto.
  - cbn [call]. rewrite after_discard, VhostMiddleware_manager. eauto.
Qed.

Lemma reachable_exact_keys (w : World) :
  reachable w → exact_keys_plain (manager w).
Proof.
  induction 1 as [config σ|w k _ IH]; intros key Hkey.
  - destruct config; cbn in Hkey; rewrite lookup_empty in Hkey; by destruct Hkey.
  - apply hosts_after_call in Hkey as [Hkey|Hkey]; [by apply IH|done].
Qed.

(** C8. [RemoveHostname(h)] on a hostname without a binding returns
    [ErrHostNotFound] and leaves the manager and the applications as they
    were; and in every world a client can reach, after a successful
    [AddHostname(h, H)], [RemoveHostname(h)] succeeds, the binding is gone
    (the manager is again what it was before the two calls), and
    [GetHostname(h)] reports [false]. *)
Theorem remove_unbound_and_after_add (w : World) (h : string) :
  (¬ has_binding (manager w) h →
     result (RemoveHostname h) w = ErrHostNotFound ∧
     manager (after (RemoveHostname h) w) = manager w ∧
     apps (after (RemoveHostname h) w) = apps w) ∧
  (∀ H, reachable w → result (AddHostname h H) w = nil_error →
     result (remove_after_add h H) w = (nil_error, (None, false)) ∧
     manager (after (remove_after_add h H) w) = manager w ∧
     ¬ has_binding (manager (after (remove_after_add h H) w)) h).
Proof.
  split.
  - intros Hnb. destruct (HasPrefix h "*.") eqn:Hp.
    + rewrite (has_binding_wildcard _ _ Hp) in Hnb.
      unfold_M. cbn. rewrite Hp. cbn. unfold comma_ok.
      destruct (wildcards (manager w) !! slice_from h 2); [by destruct Hnb; eauto|].
      done.
    + rewrite (has_binding_exact _ _ Hp) in Hnb.
      unfold_M. cbn. rewrite Hp. cbn. unfold comma_ok.
      destruct (hosts (manager w) !! h); [by destruct Hnb; eauto|].
      done.
  - intros H Hreach%reachable_exact_keys Hok.
    assert (manager (after (remove_after_add h H) w) = manager w →
            ¬ has_binding (manager w) h →
            ¬ has_binding (manager (after (remove_after_add h H) w)) h) as Hback
      by (by intros ->).
    revert Hok Hback. unfold remove_after_add. unfold_M. cbn.
    destruct (decide (h = "")) as [|_]; [done|]. cbn.
    destruct (HasPrefix h "*.") eqn:Hp; cbn; unfold comma_ok.
    + destruct (wildcards (manager w) !! slice_from h 2) eqn:Hw; [done|]. cbn.
      rewrite lookup_insert_eq. cbn. intros _ Hback.
      rewrite (delete_insert_id _ _ _ Hw), manager_eta in *.
      destruct (hosts (manager w) !! h) as [a|] eqn:Hh.
      { destruct (Hreach h) as [_ ?]; [by eauto|congruence]. }
      cbn. split_and!; [done..|].
      apply Hback; [done|]. rewrite (has_binding_wildcard _ _ Hp), Hw. by intros [].
    + destruct (hosts (manager w) !! h) eqn:Hh; [done|]. cbn.
      rewrite lookup_insert_eq. cbn. intros _ Hback.
      rewrite (delete_insert_id _ _ _ Hh), manager_eta in *.
      rewrite Hh. cbn. split_and!; [done..|].
      apply Hback; [done|]. rewrite (has_binding_exact _ _ Hp), Hh. by intros [].
Qed.

Lemma remove_unbound_and_after_add_witness :
  result (RemoveHostname "nonexistent.com") (new_world [] ∅) = ErrHostNotFound ∧
  result (remove_after_add "*.example.com" (Some 1%positive)) (new_world [] ∅)
  = (nil_error, (None, false)).
Proof.
  split.
  - apply (remove_unbound_and_after_add (new_world [] ∅) "nonexistent.com").
    rewrite has_binding_exact by done. cbn. rewrite lookup_empty. by intros [].
  - destruct (proj2 (remove_unbound_and_after_add (new_world [] ∅) "*.example.com")
                (Some 1%positive)) as (Hr & _).
    + apply reachable_new.
    + vm_compute. reflexivity.
    + exact Hr.
Defined.

(** ** Dispatch on a miss *)

Lemma events_trace {A} (c : M A) (w : World) (evs : list Event) :
  trace (after c w) = trace w ++ evs → events c w = evs.
Proof. unfold events. intros ->. apply drop_trace. Qed.

Lemma served_app (evs evs' : list Event) :
  served (evs ++ evs') = served evs ++ served evs'.
Proof.
  induction evs as [|e evs IH]; [done|]. destruct e; cbn; by rewrite ?IH.
Qed.

Lemma served_reads (fs : list Field) : served (EvRead <$> fs) = [].
Proof. by induction fs. Qed.

Lemma recovered_app (evs evs' : list Event) :
  recovered (evs ++ evs') = recovered evs ++ recovered evs'.
Proof.
  induction evs as [|e evs IH]; [done|].
  destruct e as [| | | | |a []|]; cbn; by rewrite ?IH.
Qed.

Lemma recovered_reads (fs : list Field) : recovered (EvRead <$> fs) = [].
Proof. by induction fs. Qed.

(** A hostname with no exact entry and no wildcard entry for what follows
    its leftmost label resolves to the default handler. *)
Lemma findMatchingApp_no_match (w : World) (h : string) :
  hosts (manager w) !! h = None →
  (∀ label rest,
     h = label +:+ "." +:+ rest → contains label dot = false →
     wildcards (manager w) !! rest = None) →
  result (findMatchingApp h) w = defaultApp (manager w).
Proof.
  intros Hh Hw. destruct (leftmost_label dot h) as [Hl|(label & rest & -> & Hl)].
  - by apply findMatchingApp_single_label.
  - change (String dot rest) with ("." +:+ rest) in *.
    by rewrite findMatchingApp_dotted, (Hw label rest).
Qed.

Lemma VhostMiddleware_events_hit (w : World) (c : Ctx) (a : App) :
  result (findMatchingApp (Hostname c)) w = Some a →
  result (VhostMiddleware c) w = nil_error ∧
  served (events (VhostMiddleware c) w) = [(a, c)] ∧
  recovered (events (VhostMiddleware c) w) =
    (if enableLog (manager w) then [a] else []) ∧
  apps (after (VhostMiddleware c) w) =
    (if enableLog (manager w)
     then <[a := stack_of (apps w) a ++ [recoverHandler]]> (apps w)
     else apps w).
Proof.
  intros Hr. destruct (VhostMiddleware_hit w c a Hr) as (fs & Hrun).
  unfold result, events, after. rewrite Hrun. cbn [fst snd].
  destruct (enableLog (manager w)); cbn [trace apps logged]; rewrite drop_trace.
  - rewrite served_app, recovered_app. cbn.
    by rewrite served_app, recovered_app, served_reads, recovered_reads.
  - rewrite served_app, recovered_app. cbn.
    by rewrite served_app, recovered_app, served_reads, recovered_reads.
Qed.

Lemma VhostMiddleware_events_miss (w : World) (c : Ctx) :
  result (findMatchingApp (Hostname c)) w = None →
  result (VhostMiddleware c) w = ErrNotFound ∧
  served (events (VhostMiddleware c) w) = [] ∧
  recovered (events (VhostMiddleware c) w) = [] ∧
  apps (after (VhostMiddleware c) w) = apps w.
Proof.
  intros Hr. destruct (VhostMiddleware_miss w c Hr) as (fs & Hrun).
  unfold result, events, after. rewrite Hrun. cbn [fst snd trace apps logged].
  rewrite drop_trace, !served_app, !recovered_app, served_reads, recovered_reads.
  by destruct (enableLog (manager w)).
Qed.

(** C4. When the hostname of a request has no exact entry and no wildcard
    entry for what follows its leftmost label: without a default handler
    the dispatcher returns [fiber.ErrNotFound] and invokes no handler;
    with a default handler it invokes that handler, and only it, and
    returns [nil]. *)
Theorem dispatch_on_miss (w : World) (c : Ctx) :
  hosts (manager w) !! Hostname c = None →
  (∀ label rest,
     Hostname c = label +:+ "." +:+ rest → contains label dot = false →
     wildcards (manager w) !! rest = None) →
  (defaultApp (manager w) = None →
     result (VhostMiddleware c) w = ErrNotFound ∧
     served (events (VhostMiddleware c) w) = []) ∧
  (∀ d, defaultApp (manager w) = Some d →
     result (VhostMiddleware c) w = nil_error ∧
     result (VhostMiddleware c) w ≠ ErrNotFound ∧
     served (events (VhostMiddleware c) w) = [(d, c)]).
Proof.
  intros Hh Hw. pose proof (findMatchingApp_no_match w _ Hh Hw) as Hr. split.
  - intros Hd. rewrite Hd in Hr.
    destruct (VhostMiddleware_events_miss w c Hr) as (? & ? & _). done.
  - intros d Hd. rewrite Hd in Hr.
    destruct (VhostMiddleware_events_hit w c d Hr) as (Hnil & ? & _).
    rewrite Hnil. done.
Qed.

Lemma dispatch_on_miss_witness :
  let c := {| Hostname := "nonexistent.com"; request := 0 |} in
  (result (VhostMiddleware c) (new_world [] ∅) = ErrNotFound ∧
   served (events (VhostMiddleware c) (new_world [] ∅)) = []) ∧
  (let w := after (SetDefaultApp (Some 7%positive)) (new_world [] ∅) in
   result (VhostMiddleware c) w = nil_error ∧
   served (events (VhostMiddleware c) w) = [(7%positive, c)]).
Proof.
  intros c. split.
  - destruct (dispatch_on_miss (new_world [] ∅) c) as (Hmiss & _).
    + apply lookup_empty.
    + intros label rest _ _. apply lookup_empty.
    + by apply Hmiss.
  - intros w. destruct (dispatch_on_miss w c) as (_ & Hdefault).
    + apply lookup_empty.
    + intros label rest _ _. apply lookup_empty.
    + destruct (Hdefault 7%positive) as (? & _ & ?); done.
Defined.

(** ** The recovery handler and the two configuration flags *)

Lemma findMatchingApp_result_flag (b : bool) (w : World) (h : string) :
  result (findMatchingApp h) (with_enableLog b w) = result (findMatchingApp h) w.
Proof.
  unfold result. rewrite !findMatchingApp_run. cbn.
  repeat case_match; done.
Qed.

(** C2 (the code departs from the claim). [NewVhostsManager] never reads
    [RecoverFromPanic]: two configurations that differ in it give the same
    manager.  The dispatcher puts the recovery handler on the resolved
    application exactly when [EnableLogging] is set.  With
    [RecoverFromPanic] set and [EnableLogging] not, a request for a
    registered hostname is served without the recovery handler; with
    [EnableLogging] set and [RecoverFromPanic] not, it is served with it. *)
Theorem recover_follows_logging_flag :
  (∀ d l r r' rest,
     NewVhostsManager
       ({| DefaultApp := d; EnableLogging := l; RecoverFromPanic := r |} :: rest) =
     NewVhostsManager
       ({| DefaultApp := d; EnableLogging := l; RecoverFromPanic := r' |} :: rest)) ∧
  (∀ a l r rest σ c,
     recovered (events (VhostMiddleware c)
       (new_world ({| DefaultApp := Some a; EnableLogging := l;
                      RecoverFromPanic := r |} :: rest) σ))
     = if l then [a] else []) ∧
  (let w := after (AddHostname "example.com" (Some 1%positive))
                  (new_world [recover_only] ∅) in
   events (VhostMiddleware example_request) w =
     [EvRead f_enableLog; EvRead f_hosts; EvRead f_enableLog;
      EvServe 1%positive [] example_request] ∧
   apps (after (VhostMiddleware example_request) w) = ∅) ∧
  (let w := after (AddHostname "example.com" (Some 1%positive))
                  (new_world [logging_only] ∅) in
   events (VhostMiddleware example_request) w =
     [EvRead f_enableLog; EvInfof "example.com"; EvRead f_hosts; EvRead f_enableLog;
      EvUse 1%positive recoverHandler;
      EvServe 1%positive [recoverHandler] example_request] ∧
   apps (after (VhostMiddleware example_request) w) = {[1%positive := [recoverHandler]]}).
Proof.
  split_and!.
  - done.
  - intros a l r rest σ c.
    assert (result (findMatchingApp (Hostname c))
              (new_world ({| DefaultApp := Some a; EnableLogging := l;
                             RecoverFromPanic := r |} :: rest) σ) = Some a) as Hr.
    { apply findMatchingApp_no_match; [apply lookup_empty|].
      intros label rest' _ _. apply lookup_empty. }
    by destruct (VhostMiddleware_events_hit _ c a Hr) as (_ & _ & -> & _).
  - vm_compute. done.
  - vm_compute. done.
Qed.

(** C3 (the code departs from the claim). Two runs of the dispatcher that
    differ in the logging flag only, on a request that resolves to an
    application: they return the same value and invoke the same
    application, but the run with logging puts the recovery handler on
    that application, and the run without leaves the applications as they
    were. *)
Theorem logging_flag_changes_dispatch (w : World) (c : Ctx) (a : App) :
  result (findMatchingApp (Hostname c)) w = Some a →
  let on := with_enableLog true w in
  let off := with_enableLog false w in
  result (VhostMiddleware c) on = result (VhostMiddleware c) off ∧
  served (events (VhostMiddleware c) on) = served (events (VhostMiddleware c) off) ∧
  recovered (events (VhostMiddleware c) on) = [a] ∧
  recovered (events (VhostMiddleware c) off) = [] ∧
  apps (after (VhostMiddleware c) off) = apps w ∧
  apps (after (VhostMiddleware c) on) =
    <[a := stack_of (apps w) a ++ [recoverHandler]]> (apps w) ∧
  apps (after (VhostMiddleware c) on) ≠ apps (after (VhostMiddleware c) off).
Proof.
  intros Hr on off.
  destruct (VhostMiddleware_events_hit on c a) as (Hr1 & Hs1 & Hc1 & Ha1);
    [by unfold on; rewrite findMatchingApp_result_flag|].
  destruct (VhostMiddleware_events_hit off c a) as (Hr0 & Hs0 & Hc0 & Ha0);
    [by unfold off; rewrite findMatchingApp_result_flag|].
  change (enableLog (manager on)) with true in Hc1, Ha1.
  change (enableLog (manager off)) with false in Hc0, Ha0.
  change (apps on) with (apps w) in Ha1. change (apps off) with (apps w) in Ha0.
  cbv iota in Hc1, Hc0, Ha1, Ha0.
  rewrite Hr1, Hr0, Hs1, Hs0, Hc1, Hc0, Ha1, Ha0. split_and!; try done.
  intros Heq. apply (f_equal (λ σ, length (stack_of σ a))) in Heq.
  unfold stack_of at 1 in Heq. rewrite lookup_insert_eq in Heq. cbn in Heq.
  rewrite length_app in Heq. cbn in Heq. lia.
Qed.

Lemma logging_flag_changes_dispatch_witness :
  let w := after (AddHostname "example.com" (Some 1%positive)) (new_world [] ∅) in
  apps (after (VhostMiddleware example_request) (with_enableLog true w)) ≠
  apps (after (VhostMiddleware example_request) (with_enableLog false w)).
Proof.
  intros w.
  assert (result (findMatchingApp (Hostname example_request)) w = Some 1%positive)
    as Hr by (vm_compute; reflexivity).
  exact (proj2 (proj2 (proj2 (proj2 (proj2 (proj2
    (logging_flag_changes_dispatch w example_request 1%positive Hr))))))).
Defined.

(** ** The lock *)

Lemma drop_whole_trace (t : list Event) : drop (List.length t) t = [].
Proof. apply drop_all. Qed.

Ltac events_M :=
  run_M; rewrite <- ?app_assoc; rewrite ?drop_trace, ?drop_whole_trace; cbn;
  try done.

Lemma mutex_ops_reads (fs : list Field) : mutex_ops (EvRead <$> fs) = [].
Proof. by induction fs. Qed.

Lemma findMatchingApp_events (w : World) (h : string) :
  ∃ fs, events (findMatchingApp h) w = EvRead <$> f_hosts :: fs.
Proof.
  unfold events, after. rewrite findMatchingApp_run.
  destruct (hosts (manager w) !! h); [|destruct (Nat.ltb 1 _);
    [destruct (wildcards (manager w) !! _)|]];
    cbn [snd logged trace]; rewrite drop_trace.
  - by exists [].
  - by exists [f_wildcards].
  - by exists [f_wildcards; f_defaultApp].
  - by exists [f_defaultApp].
Qed.

Lemma findMatchingApp_unguarded (w : World) (h : string) :
  mutex_ops (events (findMatchingApp h) w) = [] ∧
  guarded (events (findMatchingApp h) w) = false.
Proof.
  destruct (findMatchingApp_events w h) as (fs & ->).
  by rewrite mutex_ops_reads.
Qed.

(** C9 (the code departs from the claim). [AddHostname] (on a non-empty
    hostname), [RemoveHostname] and [SetDefaultApp] take [m.mu.Lock()] and
    release it on return, [GetHostname] and [GetHostnames] take
    [m.mu.RLock()] and release it on return, and all their reads and writes
    of the maps and the default handler fall in between.  But
    [findMatchingApp] performs no mutex operation at all: it reads the
    exact map, and then the wildcard map and the default handler, with no
    lock held. *)
Theorem findMatchingApp_takes_no_lock (w : World) (h : string) (app : AppPtr) :
  (mutex_ops (events (AddHostname h app) w) = (if decide (h = "") then [] else [Lock; Unlock]) ∧
   guarded (events (AddHostname h app) w) = true) ∧
  (mutex_ops (events (RemoveHostname h) w) = [Lock; Unlock] ∧
   guarded (events (RemoveHostname h) w) = true) ∧
  (mutex_ops (events (SetDefaultApp app) w) = [Lock; Unlock] ∧
   guarded (events (SetDefaultApp app) w) = true) ∧
  (mutex_ops (events (GetHostname h) w) = [RLock; RUnlock] ∧
   guarded (events (GetHostname h) w) = true) ∧
  (mutex_ops (events GetHostnames w) = [RLock; RUnlock] ∧
   guarded (events GetHostnames w) = true) ∧
  (mutex_ops (events (findMatchingApp h) w) = [] ∧
   guarded (events (findMatchingApp h) w) = false).
Proof.
  split_and!; try apply findMatchingApp_unguarded.
  all: events_M.
Qed.

(** ** More on the registry: running the methods *)

Lemma AddHostname_run (w : World) (h : string) (H : AppPtr) :
  h ≠ "" →
  AddHostname h H w =
    if HasPrefix h "*." then
      match wildcards (manager w) !! slice_from h 2 with
      | Some _ => (ErrHostExists, logged w [EvMu Lock; EvRead f_wildcards; EvMu Unlock])
      | None =>
          (nil_error,
           {| manager := {| hosts := hosts (manager w);
                            wildcards := <[slice_from h 2 := H]> (wildcards (manager w));
                            defaultApp := defaultApp (manager w);
                            enableLog := enableLog (manager w) |};
              apps := apps w;
              trace := trace w ++ [EvMu Lock; EvRead f_wildcards;
                                   EvWrite f_wildcards; EvMu Unlock] |})
      end
    else
      match hosts (manager w) !! h with
      | Some _ => (ErrHostExists, logged w [EvMu Lock; EvRead f_hosts; EvMu Unlock])
      | None =>
          (nil_error,
           {| manager := {| hosts := <[h := H]> (hosts (manager w));
                            wildcards := wildcards (manager w);
                            defaultApp := defaultApp (manager w);
                            enableLog := enableLog (manager w) |};
              apps := apps w;
              trace := trace w ++ [EvMu Lock; EvRead f_hosts;
                                   EvWrite f_hosts; EvMu Unlock] |})
      end.
Proof.
  intros Hne. unfold logged. unfold_M. cbn.
  destruct (decide (h = "")) as [|_]; [done|]. cbn.
  destruct (HasPrefix h "*."); cbn; unfold comma_ok.
  - destruct (wildcards (manager w) !! slice_from h 2); cbn; by rewrite <- !app_assoc.
  - destruct (hosts (manager w) !! h); cbn; by rewrite <- !app_assoc.
Qed.

Lemma RemoveHostname_run (w : World) (h : string) :
  RemoveHostname h w =
    if HasPrefix h "*." then
      match wildcards (manager w) !! slice_from h 2 with
      | None => (ErrHostNotFound, logged w [EvMu Lock; EvRead f_wildcards; EvMu Unlock])
      | Some _ =>
          (nil_error,
           {| manager := {| hosts := hosts (manager w);
                            wildcards := delete (slice_from h 2) (wildcards (manager w));
                            defaultApp := defaultApp (manager w);
                            enableLog := enableLog (manager w) |};
              apps := apps w;
              trace := trace w ++ [EvMu Lock; EvRead f_wildcards;
                                   EvWrite f_wildcards; EvMu Unlock] |})
      end
    else
      match hosts (manager w) !! h with
      | None => (ErrHostNotFound, logged w [EvMu Lock; EvRead f_hosts; EvMu Unlock])
      | Some _ =>
          (nil_error,
           {| manager := {| hosts := delete h (hosts (manager w));
                            wildcards := wildcards (manager w);
                            defaultApp := defaultApp (manager w);
                            enableLog := enableLog (manager w) |};
              apps := apps w;
              trace := trace w ++ [EvMu Lock; EvRead f_hosts;
                                   EvWrite f_hosts; EvMu Unlock] |})
      end.
Proof.
  unfold logged. unfold_M. cbn.
  destruct (HasPrefix h "*."); cbn; unfold comma_ok.
  - destruct (wildcards (manager w) !! slice_from h 2); cbn; by rewrite <- !app_assoc.
  - destruct (hosts (manager w) !! h); cbn; by rewrite <- !app_assoc.
Qed.

Lemma GetHostname_run (w : World) (h : string) :
  GetHostname h w =
    (comma_ok (hosts (manager w)) h,
     logged w [EvMu RLock; EvRead f_hosts; EvMu RUnlock]).
Proof.
  unfold logged. unfold_M. cbn. rewrite <- !app_assoc.
  by destruct (comma_ok (hosts (manager w)) h).
Qed.

Lemma GetHostnames_run (w : World) :
  GetHostnames w =
    ((map_to_list (hosts (manager w))).*1,
     logged w [EvMu RLock; EvRead f_hosts; EvMu RUnlock]).
Proof. unfold logged. unfold_M. cbn. by rewrite <- !app_assoc. Qed.

Lemma SetDefaultApp_run (w : World) (app : AppPtr) :
  SetDefaultApp app w =
    (tt, {| manager := {| hosts := hosts (manager w);
                          wildcards := wildcards (manager w);
                          defaultApp := app;
                          enableLog := enableLog (manager w) |};
            apps := apps w;
            trace := trace w ++ [EvMu Lock; EvWrite f_defaultApp; EvMu Unlock] |}).
Proof. unfold_M. cbn. by rewrite <- !app_assoc. Qed.

(** What [findMatchingApp] returns depends on the manager only. *)
Lemma findMatchingApp_result_manager (w w' : World) (h : string) :
  manager w = manager w' →
  result (findMatchingApp h) w = result (findMatchingApp h) w'.
Proof.
  intros Hm. unfold result. rewrite !findMatchingApp_run, Hm.
  repeat case_match; done.
Qed.

(** ** Listing: [GetHostnames] *)

(** X1. [GetHostnames] returns the keys of the exact map, each once: a
    hostname is listed exactly when it has an exact entry (wildcard
    entries and the default handler are not listed), the list is as long
    as the map is large, and the call changes neither the manager nor the
    applications. *)
Theorem GetHostnames_lists_exact_keys (w : World) :
  NoDup (result GetHostnames w) ∧
  (∀ h, h ∈ result GetHostnames w ↔ is_Some (hosts (manager w) !! h)) ∧
  List.length (result GetHostnames w) = size (hosts (manager w)) ∧
  manager (after GetHostnames w) = manager w ∧
  apps (after GetHostnames w) = apps w.
Proof.
  unfold result, after. rewrite GetHostnames_run. cbn [fst snd logged manager apps].
  split_and!; try done.
  - apply NoDup_fst_map_to_list.
  - intros h. rewrite list_elem_of_fmap. split.
    + intros ([h' a] & -> & Hin%elem_of_map_to_list). by eexists.
    + intros [a Ha]. exists (h, a). split; [done|]. by apply elem_of_map_to_list.
  - by rewrite length_fmap, length_map_to_list.
Qed.

(** X2. How the listing follows the registry, up to order: a successful
    [AddHostname] of an exact hostname adds that hostname to the list, a
    successful [RemoveHostname] of an exact hostname takes it off, and
    [AddHostname] and [RemoveHostname] on a hostname ["*." ++ suffix] and
    [SetDefaultApp] leave the list as it is. *)
Theorem GetHostnames_follows_registry (w : World) (h : string) (H : AppPtr) :
  ((∀ suffix, h ≠ "*." +:+ suffix) →
     (result (AddHostname h H) w = nil_error →
        result GetHostnames (after (AddHostname h H) w) ≡ₚ h :: result GetHostnames w) ∧
     (result (RemoveHostname h) w = nil_error →
        h :: result GetHostnames (after (RemoveHostname h) w) ≡ₚ result GetHostnames w)) ∧
  ((∃ suffix, h = "*." +:+ suffix) →
     result GetHostnames (after (AddHostname h H) w) ≡ₚ result GetHostnames w ∧
     result GetHostnames (after (RemoveHostname h) w) ≡ₚ result GetHostnames w) ∧
  result GetHostnames (after (SetDefaultApp H) w) ≡ₚ result GetHostnames w.
Proof.
  split_and!.
  - intros Hp%HasPrefix_wildcard_false. split.
    + destruct (decide (h = "")) as [->|Hne]; [by run_M|].
      unfold result, after. rewrite (AddHostname_run _ _ _ Hne), Hp, !GetHostnames_run.
      destruct (hosts (manager w) !! h) eqn:Hh; [done|]. intros _. cbn.
      by rewrite (map_to_list_insert _ _ _ Hh).
    + unfold result, after. rewrite RemoveHostname_run, Hp, !GetHostnames_run.
      destruct (hosts (manager w) !! h) as [a|] eqn:Hh; [|done]. intros _. cbn.
      by rewrite <- (map_to_list_delete _ _ _ Hh).
  - intros Hp%HasPrefix_wildcard_iff.
    assert (h ≠ "") as Hne by (by intros ->).
    unfold result, after.
    rewrite (AddHostname_run _ _ _ Hne), RemoveHostname_run, Hp, !GetHostnames_run.
    by destruct (wildcards (manager w) !! slice_from h 2).
  - unfold result, after. by rewrite SetDefaultApp_run, !GetHostnames_run.
Qed.

Lemma GetHostnames_follows_registry_witness :
  result GetHostnames
    (after (AddHostname "example1.com" (Some 1%positive)) (new_world [] ∅))
  ≡ₚ ["example1.com"] ∧
  result GetHostnames
    (after (AddHostname "*.example.com" (Some 2%positive)) (new_world [] ∅))
  ≡ₚ [].
Proof.
  destruct (GetHostnames_follows_registry (new_world [] ∅) "example1.com"
              (Some 1%positive)) as (Hexact & _ & _).
  destruct (GetHostnames_follows_registry (new_world [] ∅) "*.example.com"
              (Some 2%positive)) as (_ & Hwild & _).
  split.
  - destruct Hexact as [Hadd _]; [by apply HasPrefix_wildcard_false|].
    apply Hadd. vm_compute. reflexivity.
  - destruct Hwild as [Hadd _]; [by eexists|]. exact Hadd.
Defined.

(** ** A fresh manager *)

(** X3. [NewVhostsManager] reads its first configuration only, and the
    manager it returns has no entries: nothing is listed, no hostname is
    found or can be removed, and every hostname resolves to the configured
    default handler; when that is [nil] (or no configuration is given)
    every request gets [fiber.ErrNotFound] and no handler is invoked. *)
Theorem fresh_manager (config : list Config) (σ : gmap App (list Handler))
    (h : string) (c : Ctx) :
  let w := new_world config σ in
  NewVhostsManager config = NewVhostsManager (take 1 config) ∧
  defaultApp (manager w) = default None (DefaultApp <$> head config) ∧
  result GetHostnames w = [] ∧
  result (GetHostname h) w = (None, false) ∧
  result (RemoveHostname h) w = ErrHostNotFound ∧
  result (findMatchingApp h) w = defaultApp (manager w) ∧
  (defaultApp (manager w) = None →
     result (VhostMiddleware c) w = ErrNotFound ∧
     served (events (VhostMiddleware c) w) = []).
Proof.
  intros w.
  assert (hosts (manager w) = ∅ ∧ wildcards (manager w) = ∅) as [Hh Hw]
    by (by destruct config).
  assert (∀ k, result (findMatchingApp k) w = defaultApp (manager w)) as Hres.
  { intros k. apply findMatchingApp_no_match.
    - by rewrite Hh, lookup_empty.
    - intros label rest _ _. by rewrite Hw, lookup_empty. }
  split_and!.
  - by destruct config.
  - by destruct config.
  - unfold result. by rewrite GetHostnames_run, Hh, map_to_list_empty.
  - unfold result. rewrite GetHostname_run. unfold comma_ok.
    by rewrite Hh, lookup_empty.
  - unfold result. rewrite RemoveHostname_run, Hh, Hw, !lookup_empty.
    by destruct (HasPrefix h "*.").
  - apply Hres.
  - intros Hd. destruct (VhostMiddleware_events_miss w c) as (? & ? & _); [|done].
    by rewrite Hres.
Qed.

Lemma fresh_manager_witness :
  result (VhostMiddleware {| Hostname := "nonexistent.com"; request := 0 |})
    (new_world [] ∅) = ErrNotFound.
Proof.
  destruct (fresh_manager [] ∅ "nonexistent.com"
              {| Hostname := "nonexistent.com"; request := 0 |})
    as (_ & _ & _ & _ & _ & _ & Hmiss).
  by destruct Hmiss.
Defined.

(** ** Registration and resolution together *)


Lemma length_label_rest (label rest : string) :
  String.length (label +:+ "." +:+ rest) = S (String.length label + String.length rest).
Proof.
  change ("." +:+ rest) with (String dot rest).
  induction label as [|c l IH]; rewrite ?append_nil, ?append_cons.
  - done.
  - cbn [String.length]. by rewrite IH.
Qed.



(** X5. Registering an exact hostname: when the hostname of a request is
    not empty, does not start with ["*."] and has no exact entry, then after
    [AddHostname(hostname, app)] with a non-nil [app] the dispatcher serves
    the request with [app], and only with it, and returns [nil], whatever
    wildcard entries and default handler there are. *)
Theorem exact_add_then_dispatch (w : World) (c : Ctx) (a : App) :
  Hostname c ≠ "" →
  (∀ suffix, Hostname c ≠ "*." +:+ suffix) →
  hosts (manager w) !! Hostname c = None →
  let w' := after (AddHostname (Hostname c) (Some a)) w in
  result (AddHostname (Hostname c) (Some a)) w = nil_error ∧
  result (findMatchingApp (Hostname c)) w' = Some a ∧
  result (VhostMiddleware c) w' = nil_error ∧
  served (events (VhostMiddleware c) w') = [(a, c)].
Proof.
  intros Hne Hp%HasPrefix_wildcard_false Hfree w'.
  assert (result (AddHostname (Hostname c) (Some a)) w = nil_error ∧
          hosts (manager w') !! Hostname c = Some (Some a : AppPtr)) as [Hok Hh].
  { unfold w', result, after. rewrite (AddHostname_run _ _ _ Hne), Hp, Hfree.
    cbn. by rewrite lookup_insert_eq. }
  assert (result (findMatchingApp (Hostname c)) w' = Some a) as Hr
    by (unfold result; by rewrite findMatchingApp_run, Hh).
  destruct (VhostMiddleware_events_hit w' c a Hr) as (? & ? & _). done.
Qed.

Lemma exact_add_then_dispatch_witness :
  let w' := after (AddHostname "example.com" (Some 1%positive))
                  (new_world [] ∅) in
  result (VhostMiddleware example_request) w' = nil_error ∧
  served (events (VhostMiddleware example_request) w') = [(1%positive, example_request)].
Proof.
  intros w'.
  destruct (exact_add_then_dispatch (new_world [] ∅) example_request 1%positive)
    as (_ & _ & Hnil & Hserved).
  - done.
  - by apply HasPrefix_wildcard_false.
  - apply lookup_empty.
  - by split.
Defined.

(** X6. [AddHostname] accepts a [nil] application, and the entry then hides
    the fallbacks: [GetHostname] reports [(nil, true)], [findMatchingApp]
    returns [nil] without consulting the wildcard map or the default
    handler, and the dispatcher answers [fiber.ErrNotFound] and invokes
    nothing, even when a wildcard entry matches and a default handler is
    set. *)
Theorem nil_entry_hides_fallbacks (w : World) (c : Ctx) :
  Hostname c ≠ "" →
  (∀ suffix, Hostname c ≠ "*." +:+ suffix) →
  hosts (manager w) !! Hostname c = None →
  let w' := after (AddHostname (Hostname c) None) w in
  result (AddHostname (Hostname c) None) w = nil_error ∧
  result (GetHostname (Hostname c)) w' = (None, true) ∧
  events (findMatchingApp (Hostname c)) w' = [EvRead f_hosts] ∧
  result (VhostMiddleware c) w' = ErrNotFound ∧
  served (events (VhostMiddleware c) w') = [].
Proof.
  intros Hne Hp%HasPrefix_wildcard_false Hfree w'.
  assert (result (AddHostname (Hostname c) None) w = nil_error ∧
          hosts (manager w') !! Hostname c = Some (None : AppPtr)) as [Hok Hh].
  { unfold w', result, after. rewrite (AddHostname_run _ _ _ Hne), Hp, Hfree.
    cbn. by rewrite lookup_insert_eq. }
  assert (result (findMatchingApp (Hostname c)) w' = None) as Hr
    by (unfold result; by rewrite findMatchingApp_run, Hh).
  destruct (VhostMiddleware_events_miss w' c Hr) as (? & ? & _).
  split_and!; try done.
  - unfold result. rewrite GetHostname_run. unfold comma_ok. by rewrite Hh.
  - apply events_logged. unfold after. by rewrite findMatchingApp_run, Hh.
Qed.

Lemma nil_entry_hides_fallbacks_witness :
  let w := {| manager := {| hosts := ∅;
                            wildcards := {["example.com" := Some 2%positive]};
                            defaultApp := Some 3%positive; enableLog := false |};
              apps := ∅; trace := [] |} in
  let c := {| Hostname := "sub.example.com"; request := 0 |} in
  result (VhostMiddleware c) w = nil_error ∧
  result (VhostMiddleware c) (after (AddHostname "sub.example.com" None) w) = ErrNotFound.
Proof.
  intros w c. split; [vm_compute; reflexivity|].
  destruct (nil_entry_hides_fallbacks w c) as (_ & _ & _ & Hnf & _).
  - done.
  - by apply HasPrefix_wildcard_false.
  - apply lookup_empty.
  - exact Hnf.
Defined.

(** ** The default handler: [SetDefaultApp] *)

(** X7. [SetDefaultApp] replaces the default handler unconditionally: the
    last call wins; afterwards a hostname with no exact entry and no
    wildcard entry for what follows its leftmost label resolves to the new
    handler, and a hostname with an exact entry resolves as before.
    [SetDefaultApp(nil)] takes the default away: such a request then gets
    [fiber.ErrNotFound]. *)
Theorem SetDefaultApp_then_resolve (w : World) (d d' : AppPtr) (c : Ctx) :
  manager (after (SetDefaultApp d') (after (SetDefaultApp d) w)) =
    manager (after (SetDefaultApp d') w) ∧
  (∀ app, hosts (manager w) !! Hostname c = Some app →
     result (findMatchingApp (Hostname c)) (after (SetDefaultApp d) w) = app) ∧
  (hosts (manager w) !! Hostname c = None →
   (∀ label rest,
      Hostname c = label +:+ "." +:+ rest → contains label dot = false →
      wildcards (manager w) !! rest = None) →
   result (findMatchingApp (Hostname c)) (after (SetDefaultApp d) w) = d ∧
   result (VhostMiddleware c) (after (SetDefaultApp None) w) = ErrNotFound ∧
   served (events (VhostMiddleware c) (after (SetDefaultApp None) w)) = []).
Proof.
  split_and!.
  - unfold after. by rewrite !SetDefaultApp_run.
  - intros app Hh. unfold result, after.
    rewrite SetDefaultApp_run, findMatchingApp_run. cbn. by rewrite Hh.
  - intros Hh Hw.
    assert (∀ x, result (findMatchingApp (Hostname c)) (after (SetDefaultApp x) w) = x)
      as Hres.
    { intros x. unfold after. rewrite SetDefaultApp_run.
      by rewrite findMatchingApp_no_match. }
    split; [apply Hres|].
    destruct (VhostMiddleware_events_miss _ c (Hres None)) as (? & ? & _). done.
Qed.

Lemma SetDefaultApp_then_resolve_witness :
  let c := {| Hostname := "nonexistent.com"; request := 0 |} in
  result (findMatchingApp "nonexistent.com")
    (after (SetDefaultApp (Some 7%positive)) (new_world [] ∅)) = Some 7%positive ∧
  result (VhostMiddleware c)
    (after (SetDefaultApp None) (new_world [] ∅)) = ErrNotFound.
Proof.
  intros c.
  destruct (SetDefaultApp_then_resolve (new_world [] ∅) (Some 7%positive) None c)
    as (_ & _ & Hmiss).
  destruct Hmiss as (Hd & Hnf & _).
  - apply lookup_empty.
  - intros label rest _ _. apply lookup_empty.
  - by split.
Defined.

(** ** Removal *)

(** X8. After a successful [RemoveHostname(h)] the hostname is free again:
    a second [RemoveHostname(h)] returns [ErrHostNotFound], and, for a
    non-empty [h], [AddHostname(h, H)] succeeds. *)
Theorem remove_frees_hostname (w : World) (h : string) (H : AppPtr) :
  result (RemoveHostname h) w = nil_error →
  let w' := after (RemoveHostname h) w in
  result (RemoveHostname h) w' = ErrHostNotFound ∧
  (h ≠ "" → result (AddHostname h H) w' = nil_error).
Proof.
  intros Hok w'. unfold w', result, after in *. split.
  - revert Hok. rewrite !RemoveHostname_run.
    destruct (HasPrefix h "*.") eqn:Hp.
    + destruct (wildcards (manager w) !! slice_from h 2); [|done]. intros _.
      cbn. by rewrite !lookup_delete_eq.
    + destruct (hosts (manager w) !! h); [|done]. intros _.
      cbn. by rewrite !lookup_delete_eq.
  - intros Hne. revert Hok. rewrite (AddHostname_run _ _ _ Hne), !RemoveHostname_run.
    destruct (HasPrefix h "*.") eqn:Hp.
    + destruct (wildcards (manager w) !! slice_from h 2); [|done]. intros _.
      cbn. by rewrite !lookup_delete_eq.
    + destruct (hosts (manager w) !! h); [|done]. intros _.
      cbn. by rewrite !lookup_delete_eq.
Qed.

Lemma remove_frees_hostname_witness :
  let w := after (AddHostname "*.example.com" (Some 1%positive)) (new_world [] ∅) in
  result (RemoveHostname "*.example.com") (after (RemoveHostname "*.example.com") w)
  = ErrHostNotFound.
Proof.
  intros w.
  assert (result (RemoveHostname "*.example.com") w = nil_error) as Hok
    by (vm_compute; reflexivity).
  exact (proj1 (remove_frees_hostname w "*.example.com" None Hok)).
Defined.

(** X9. Registering or removing one hostname leaves the others alone: for
    [h' ≠ h], [GetHostname(h')] returns after [AddHostname(h, H)] and after
    [RemoveHostname(h)] what it returned before. *)
Theorem other_hostnames_untouched (w : World) (h h' : string) (H : AppPtr) :
  h ≠ h' →
  result (GetHostname h') (after (AddHostname h H) w) = result (GetHostname h') w ∧
  result (GetHostname h') (after (RemoveHostname h) w) = result (GetHostname h') w.
Proof.
  intros Hother. unfold result, after. split.
  - destruct (decide (h = "")) as [->|Hne]; [by run_M|].
    rewrite (AddHostname_run _ _ _ Hne), !GetHostname_run. unfold comma_ok.
    destruct (HasPrefix h "*.").
    + by destruct (wildcards (manager w) !! slice_from h 2).
    + destruct (hosts (manager w) !! h); [done|]. cbn.
      by rewrite (lookup_insert_ne _ _ _ _ Hother).
  - rewrite RemoveHostname_run, !GetHostname_run. unfold comma_ok.
    destruct (HasPrefix h "*.").
    + by destruct (wildcards (manager w) !! slice_from h 2).
    + destruct (hosts (manager w) !! h); [|done]. cbn.
      by rewrite (lookup_delete_ne _ _ _ Hother).
Qed.

Lemma other_hostnames_untouched_witness :
  let w := after (AddHostname "example1.com" (Some 1%positive)) (new_world [] ∅) in
  result (GetHostname "example1.com") (after (RemoveHostname "example2.com") w)
  = result (GetHostname "example1.com") w.
Proof.
  intros w.
  assert ("example2.com" ≠ "example1.com") as Hother by done.
  exact (proj2 (other_hostnames_untouched w "example2.com" "example1.com" None Hother)).
Defined.

(** ** What the calls leave alone *)

(** X10. Reading does not write: [GetHostname] and [findMatchingApp] leave
    the manager and the applications as they were, and the dispatcher
    leaves the manager as it was; with logging off it leaves the
    applications as they were, too. *)
Theorem reads_leave_the_registry (w : World) (h : string) (c : Ctx) :
  manager (after (GetHostname h) w) = manager w ∧
  apps (after (GetHostname h) w) = apps w ∧
  manager (after (findMatchingApp h) w) = manager w ∧
  apps (after (findMatchingApp h) w) = apps w ∧
  manager (after (VhostMiddleware c) w) = manager w ∧
  (enableLog (manager w) = false → apps (after (VhostMiddleware c) w) = apps w).
Proof.
  split_and!.
  - unfold after. by rewrite GetHostname_run.
  - unfold after. by rewrite GetHostname_run.
  - by destruct (findMatchingApp_after w h) as (fs & -> & _).
  - by destruct (findMatchingApp_after w h) as (fs & -> & _).
  - apply VhostMiddleware_manager.
  - intros Hlog.
    destruct (result (findMatchingApp (Hostname c)) w) as [a|] eqn:Hr.
    + destruct (VhostMiddleware_events_hit w c a Hr) as (_ & _ & _ & ->).
      by rewrite Hlog.
    + by destruct (VhostMiddleware_events_miss w c Hr) as (_ & _ & _ & ->).
Qed.

Lemma reads_leave_the_registry_witness :
  let w := after (AddHostname "example.com" (Some 1%positive)) (new_world [] ∅) in
  apps (after (VhostMiddleware example_request) w) = apps w.
Proof.
  intros w.
  destruct (reads_leave_the_registry w "example.com" example_request)
    as (_ & _ & _ & _ & _ & Happs).
  by apply Happs.
Defined.

Lemma enableLog_after_call (w : World) (k : Call) :
  enableLog (manager (after (call k) w)) = enableLog (manager w).
Proof.
  destruct k as [h a|h|h| |a|c]; cbn [call]; rewrite ?after_discard; unfold after.
  - destruct (decide (h = "")) as [->|Hne]; [by run_M|].
    rewrite (AddHostname_run _ _ _ Hne). by repeat case_match.
  - rewrite RemoveHostname_run. by repeat case_match.
  - by rewrite GetHostname_run.
  - by rewrite GetHostnames_run.
  - by rewrite SetDefaultApp_run.
  - fold (after (VhostMiddleware c) w). by rewrite VhostMiddleware_manager.
Qed.

Lemma reachable_run_calls (ks : list Call) (w : World) :
  reachable w → reachable (run_calls ks w).
Proof.
  revert w. induction ks as [|k ks IH]; intros w Hw; [done|].
  change (run_calls (k :: ks) w) with (run_calls ks (after (call k) w)).
  apply IH. by constructor.
Qed.

(** X11. The logging flag is fixed at construction: after any sequence of
    calls on a manager made by [NewVhostsManager(config...)] the flag is the
    [EnableLogging] of the first configuration, or [false] when none was
    given. *)
Theorem logging_flag_is_fixed (ks : list Call) (config : list Config)
    (σ : gmap App (list Handler)) :
  enableLog (manager (run_calls ks (new_world config σ))) =
    default false (EnableLogging <$> head config).
Proof.
  transitivity (enableLog (manager (new_world config σ))); [|by destruct config].
  generalize (new_world config σ). induction ks as [|k ks IH]; intros w; [done|].
  change (run_calls (k :: ks) w) with (run_calls ks (after (call k) w)).
  by rewrite IH, enableLog_after_call.
Qed.

(** X12. Whatever a client calls, the exact map only ever holds hostnames
    that are not empty and do not start with ["*."]: no other hostname is
    ever listed by [GetHostnames] or found by [GetHostname]. *)
Theorem listed_hostnames_are_plain (ks : list Call) (config : list Config)
    (σ : gmap App (list Handler)) (h : string) :
  let w := run_calls ks (new_world config σ) in
  (h ∈ result GetHostnames w → h ≠ "" ∧ ∀ suffix, h ≠ "*." +:+ suffix) ∧
  ((result (GetHostname h) w).2 = true → h ≠ "" ∧ ∀ suffix, h ≠ "*." +:+ suffix).
Proof.
  intros w.
  assert (is_Some (hosts (manager w) !! h) → h ≠ "" ∧ ∀ suffix, h ≠ "*." +:+ suffix)
    as Hplain.
  { intros Hh.
    destruct (reachable_exact_keys w (reachable_run_calls ks _ (reachable_new _ _)) h Hh)
      as [Hne Hp].
    split; [done|]. by apply HasPrefix_wildcard_false. }
  split.
  - unfold result. rewrite GetHostnames_run. cbn [fst].
    rewrite list_elem_of_fmap. intros ([h' a] & -> & Hin%elem_of_map_to_list).
    apply Hplain. by eexists.
  - unfold result. rewrite GetHostname_run. cbn [fst]. unfold comma_ok.
    destruct (hosts (manager w) !! h) eqn:Hh; [|done]. intros _.
    apply Hplain. by eexists.
Qed.

Lemma listed_hostnames_are_plain_witness :
  let ks := [CallAddHostname "" (Some 1%positive);
             CallAddHostname "*.example.com" (Some 2%positive);
             CallAddHostname "example.com" (Some 3%positive)] in
  "example.com" ≠ "" ∧ ∀ suffix, "example.com" ≠ "*." +:+ suffix.
Proof.
  intros ks.
  destruct (listed_hostnames_are_plain ks [] ∅ "example.com") as (Hlisted & _).
  apply Hlisted. vm_compute. apply list_elem_of_here.
Defined.

(** ** What the dispatcher logs and what it does to the applications *)

Lemma log_records_app (evs evs' : list Event) :
  log_records (evs ++ evs') = log_records evs ++ log_records evs'.
Proof.
  induction evs as [|e evs IH]; [done|]. destruct e; cbn; by rewrite ?IH.
Qed.

Lemma log_records_reads (fs : list Field) : log_records (EvRead <$> fs) = [].
Proof. by induction fs. Qed.

(** X13. What the dispatcher logs: with logging off, nothing; with logging
    on, one [log.Infof] record with the hostname for every request,
    followed by one [log.Warnf] record with the hostname exactly when the
    hostname resolves to no handler. *)
Theorem log_records_of_dispatch (w : World) (c : Ctx) :
  log_records (events (VhostMiddleware c) w) =
    if enableLog (manager w) then
      EvInfof (Hostname c) ::
      match result (findMatchingApp (Hostname c)) w with
      | Some _ => []
      | None => [EvWarnf (Hostname c)]
      end
    else [].
Proof.
  destruct (result (findMatchingApp (Hostname c)) w) as [a|] eqn:Hr.
  - destruct (VhostMiddleware_hit w c a Hr) as (fs & Hrun).
    unfold events, after. rewrite Hrun. cbn [snd].
    destruct (enableLog (manager w)); cbn [trace logged]; rewrite drop_trace;
      rewrite !log_records_app, log_records_reads; done.
  - destruct (VhostMiddleware_miss w c Hr) as (fs & Hrun).
    unfold events, after. rewrite Hrun. cbn [snd trace logged].
    rewrite drop_trace, !log_records_app, log_records_reads.
    by destruct (enableLog (manager w)).
Qed.

Lemma dispatch_all_cons (c : Ctx) (cs : list Ctx) (w : World) :
  dispatch_all (c :: cs) w =
    (result (VhostMiddleware c) w
       :: result (dispatch_all cs) (after (VhostMiddleware c) w),
     after (dispatch_all cs) (after (VhostMiddleware c) w)).
Proof.
  cbn [dispatch_all]. unfold bind, ret.
  rewrite (run_eq (VhostMiddleware c) w).
  by rewrite (run_eq (dispatch_all cs) (after (VhostMiddleware c) w)).
Qed.

(** X14. With logging on, the dispatcher calls [app.Use(recoverHandler)] on
    every request it serves: after a run of requests that all resolve to
    the application [a], the handler stack of [a] has grown by one recovery
    handler per request.  With logging off the stack is as it was.  In both
    cases every request returns [nil]. *)
Theorem recover_handlers_accumulate (cs : list Ctx) (w : World) (a : App) :
  (∀ c, c ∈ cs → result (findMatchingApp (Hostname c)) w = Some a) →
  result (dispatch_all cs) w = replicate (List.length cs) nil_error ∧
  stack_of (apps (after (dispatch_all cs) w)) a =
    stack_of (apps w) a ++
    (if enableLog (manager w) then replicate (List.length cs) recoverHandler else []).
Proof.
  revert w. induction cs as [|c cs IH]; intros w Hall.
  - cbn. split; [done|]. destruct (enableLog (manager w)); by rewrite app_nil_r.
  - assert (result (findMatchingApp (Hostname c)) w = Some a) as Hr
      by (apply Hall; left).
    destruct (VhostMiddleware_events_hit w c a Hr) as (Hnil & _ & _ & Happs).
    pose proof (VhostMiddleware_manager w c) as Hm.
    destruct (IH (after (VhostMiddleware c) w)) as (Hres & Hstack).
    { intros c' Hc'. rewrite (findMatchingApp_result_manager _ w) by done.
      apply Hall. by right. }
    unfold result, after in *. rewrite dispatch_all_cons. cbn [fst snd].
    unfold result, after in *. rewrite Hres, Hnil, Hstack, Hm, Happs.
    split; [done|].
    destruct (enableLog (manager w)); [|done].
    unfold stack_of at 1. rewrite lookup_insert_eq. cbn.
    by rewrite <- app_assoc.
Qed.

Lemma recover_handlers_accumulate_witness :
  let w := with_enableLog true
             (after (AddHostname "example.com" (Some 1%positive)) (new_world [] ∅)) in
  stack_of (apps (after (dispatch_all [example_request; example_request]) w)) 1%positive
  = [recoverHandler; recoverHandler].
Proof.
  intros w.
  destruct (recover_handlers_accumulate [example_request; example_request] w 1%positive)
    as (_ & Hstack).
  - intros c Hc. apply list_elem_of_In in Hc.
    destruct Hc as [<-|[<-|[]]]; vm_compute; reflexivity.
  - exact Hstack.
Defined.

(** ** The dispatcher and the lock *)

Lemma mutex_ops_app (evs evs' : list Event) :
  mutex_ops (evs ++ evs') = mutex_ops evs ++ mutex_ops evs'.
Proof.
  induction evs as [|e evs IH]; [done|]. destruct e; cbn; by rewrite ?IH.
Qed.

(** The trace of a dispatch: the flag is read (and the request logged),
    [findMatchingApp] runs, and what follows touches the mutex no more
    than what came before. *)
Lemma VhostMiddleware_trace (w : World) (c : Ctx) :
  ∃ tail,
    trace (after (VhostMiddleware c) w) =
      trace (after (findMatchingApp (Hostname c))
               (logged w (EvRead f_enableLog ::
                  if enableLog (manager w) then [EvInfof (Hostname c)] else [])))
      ++ tail ∧
    mutex_ops tail = [].
Proof.
  destruct (findMatchingApp_after
              (logged w (EvRead f_enableLog ::
                 if enableLog (manager w) then [EvInfof (Hostname c)] else []))
              (Hostname c)) as (fs & Hfs & _).
  rewrite Hfs.
  unfold after, VhostMiddleware, bind, enableLog_get, when, emit, ret,
    app_Use, app_Handler. cbn.
  destruct (enableLog (manager w)) eqn:Hlog; cbn.
  - fold (logged w [EvRead f_enableLog]). rewrite <- app_assoc. cbn.
    fold (logged w [EvRead f_enableLog; EvInfof (Hostname c)]).
    rewrite run_eq, Hfs.
    destruct (result _ _); unfold logged; cbn; rewrite Hlog; cbn;
      eexists; (split; [by rewrite <- !app_assoc|done]).
  - fold (logged w [EvRead f_enableLog]).
    rewrite run_eq, Hfs.
    destruct (result _ _); unfold logged; cbn; rewrite Hlog; cbn;
      eexists; (split; [by rewrite <- !app_assoc|done]).
Qed.

(** X15. The dispatcher runs outside the lock from beginning to end: a
    request makes it perform no mutex operation at all, although it reads
    the exact map (and, on a miss there, the wildcard map and the default
    handler) on the way. *)
Theorem dispatch_takes_no_lock (w : World) (c : Ctx) :
  mutex_ops (events (VhostMiddleware c) w) = [] ∧
  EvRead f_hosts ∈ events (VhostMiddleware c) w ∧
  guarded (events (VhostMiddleware c) w) = false.
Proof.
  destruct (VhostMiddleware_trace w c) as (tail & Htrace & Htail).
  set (W := logged w (EvRead f_enableLog ::
              if enableLog (manager w) then [EvInfof (Hostname c)] else [])) in *.
  destruct (findMatchingApp_after W (Hostname c)) as (fs' & Hafter & _).
  destruct (findMatchingApp_events W (Hostname c)) as (fs & Hev).
  rewrite (events_logged _ _ _ Hafter) in Hev.
  unfold events. rewrite Htrace, Hafter, Hev. unfold W. cbn [trace logged].
  rewrite <- !app_assoc, drop_trace.
  destruct (enableLog (manager w)); cbn; rewrite mutex_ops_app, mutex_ops_reads, Htail;
    (split_and!; [done|set_solver|done]).
Qed.

(** ** The example program's routing table *)

Lemma example_setup_manager (w : World) (exact suffix : string) (A B D : AppPtr) :
  exact ≠ "" →
  (∀ s, exact ≠ "*." +:+ s) →
  hosts (manager w) !! exact = None →
  wildcards (manager w) !! suffix = None →
  manager (after (example_setup exact suffix A B D) w) =
    {| hosts := <[exact := A]> (hosts (manager w));
       wildcards := <[suffix := B]> (wildcards (manager w));
       defaultApp := D;
       enableLog := enableLog (manager w) |}.
Proof.
  intros Hne Hp%HasPrefix_wildcard_false Hh Hw.
  assert ("*." +:+ suffix ≠ "") as Hne' by done.
  assert (HasPrefix ("*." +:+ suffix) "*." = true) as Hp'
    by (apply HasPrefix_wildcard_iff; eauto).
  unfold example_setup, after, bind.
  rewrite (AddHostname_run _ _ _ Hne), Hp, Hh.
  rewrite (AddHostname_run _ _ _ Hne'), Hp', slice_from_wildcard. cbn [manager wildcards].
  rewrite Hw. by rewrite SetDefaultApp_run.
Qed.

(** X16. The routing table of the example program.  On a fresh manager,
    after [AddHostname(exact, A)], [AddHostname("*." ++ suffix, B)] and
    [SetDefaultApp(D)], with [exact] not empty and not starting with
    ["*."]: [exact] resolves to [A]; every other hostname [label.suffix]
    with a dot-free [label] resolves to [B]; every hostname that is neither
    resolves to [D]. *)
Theorem example_routing (config : list Config) (σ : gmap App (list Handler))
    (exact suffix : string) (A B D : AppPtr) (h : string) :
  exact ≠ "" →
  (∀ s, exact ≠ "*." +:+ s) →
  let w := after (example_setup exact suffix A B D) (new_world config σ) in
  (h = exact → result (findMatchingApp h) w = A) ∧
  (h ≠ exact →
     (∀ label, contains label dot = false → h = label +:+ "." +:+ suffix →
        result (findMatchingApp h) w = B) ∧
     ((∀ label, contains label dot = false → h ≠ label +:+ "." +:+ suffix) →
        result (findMatchingApp h) w = D)).
Proof.
  intros Hne Hp w.
  assert (hosts (manager (new_world config σ)) = ∅ ∧
          wildcards (manager (new_world config σ)) = ∅) as [Hh0 Hw0]
    by (by destruct config).
  assert (hosts (manager w) = {[exact := A]} ∧
          wildcards (manager w) = {[suffix := B]} ∧
          defaultApp (manager w) = D) as (Hh & Hw & Hd).
  { unfold w. rewrite (example_setup_manager _ _ _ _ _ _ Hne Hp);
      rewrite ?Hh0, ?Hw0, ?lookup_empty; done. }
  split.
  - intros ->. unfold result.
    by rewrite findMatchingApp_run, Hh, lookup_singleton_eq.
  - intros Hother.
    assert (hosts (manager w) !! h = None) as Hmiss
      by (rewrite Hh; by apply lookup_singleton_ne).
    split.
    + intros label Hl ->. rewrite findMatchingApp_dotted by done.
      by rewrite Hw, lookup_singleton_eq.
    + intros Hnot. rewrite findMatchingApp_no_match; [done|done|].
      intros label rest -> Hl. rewrite Hw. apply lookup_singleton_ne.
      intros ->. by apply (Hnot label).
Qed.

Lemma example_routing_witness :
  let w := after (example_setup "app1.example.com" "example.com"
                    (Some 1%positive) (Some 2%positive) (Some 3%positive))
                 (new_world [{| DefaultApp := None; EnableLogging := true;
                                RecoverFromPanic := true |}] ∅) in
  result (findMatchingApp "app1.example.com") w = Some 1%positive ∧
  result (findMatchingApp "www.example.com") w = Some 2%positive ∧
  result (findMatchingApp "example.com") w = Some 3%positive.
Proof.
  intros w.
  assert ("app1.example.com" ≠ "") as Hne by done.
  assert (∀ s, "app1.example.com" ≠ "*." +:+ s) as Hp
    by (by apply HasPrefix_wildcard_false).
  split_and!.
  - by apply (example_routing _ _ _ _ _ _ _ "app1.example.com" Hne Hp).
  - destruct (example_routing
                [{| DefaultApp := None; EnableLogging := true; RecoverFromPanic := true |}]
                ∅ _ "example.com" (Some 1%positive) (Some 2%positive) (Some 3%positive)
                "www.example.com" Hne Hp) as (_ & Hother).
    destruct Hother as (Hwild & _); [done|]. by apply (Hwild "www").
  - destruct (example_routing
                [{| DefaultApp := None; EnableLogging := true; RecoverFromPanic := true |}]
                ∅ _ "example.com" (Some 1%positive) (Some 2%positive) (Some 3%positive)
                "example.com" Hne Hp) as (_ & Hother).
    destruct Hother as (_ & Hdefault); [done|]. apply Hdefault.
    intros label _ Heq. apply (f_equal String.length) in Heq.
    rewrite length_label_rest in Heq. cbn in Heq. lia.
Defined.

(** ** The first version of the package *)

Lemma v1_AddHostname_run (w : World) (h : string) (app : AppPtr) :
  v1.AddHostname h app w =
    (tt, {| manager := {| hosts := <[h := app]> (hosts (manager w));
                          wildcards := wildcards (manager w);
                          defaultApp := defaultApp (manager w);
                          enableLog := enableLog (manager w) |};
            apps := apps w;
            trace := trace w ++ [EvMu Lock; EvWrite f_hosts; EvMu Unlock] |}).
Proof. unfold v1.AddHostname. unfold_M. cbn. by rewrite <- !app_assoc. Qed.

Lemma v1_VhostMiddleware_run (w : World) (c : Ctx) :
  v1.VhostMiddleware c w =
    match (hosts (manager w) !! Hostname c : option AppPtr) with
    | Some (Some a) =>
        (returns nil_error,
         logged w [EvMu RLock; EvRead f_hosts; EvMu RUnlock;
                   EvServe a (stack_of (apps w) a) c])
    | Some None => (panics, logged w [EvMu RLock; EvRead f_hosts; EvMu RUnlock])
    | None =>
        (returns ErrNotFound, logged w [EvMu RLock; EvRead f_hosts; EvMu RUnlock])
    end.
Proof.
  unfold v1.VhostMiddleware, bind. rewrite GetHostname_run. unfold comma_ok.
  destruct (hosts (manager w) !! Hostname c) as [[a|]|]; cbn; [|done..].
  unfold app_Handler, emit, ret, logged. cbn. by rewrite <- !app_assoc.
Qed.

(** X17. In the first version [AddHostname] cannot fail and replaces: after
    [AddHostname(h, A)], [GetHostname(h)] returns [(A, true)], whatever was
    registered under [h] before and whatever [h] is (the empty hostname and
    hostnames starting with ["*."] are keys like any other); other
    hostnames are not affected, nor are the wildcard map and the default
    handler of the later version. *)
Theorem v1_add_replaces (w : World) (h h' : string) (A : AppPtr) :
  result (GetHostname h) (after (v1.AddHostname h A) w) = (A, true) ∧
  (h ≠ h' →
     result (GetHostname h') (after (v1.AddHostname h A) w) = result (GetHostname h') w) ∧
  wildcards (manager (after (v1.AddHostname h A) w)) = wildcards (manager w) ∧
  defaultApp (manager (after (v1.AddHostname h A) w)) = defaultApp (manager w).
Proof.
  unfold result, after. rewrite v1_AddHostname_run, !GetHostname_run.
  unfold comma_ok. cbn. split_and!; try done.
  - by rewrite lookup_insert_eq.
  - intros Hother. by rewrite (lookup_insert_ne _ _ _ _ Hother).
Qed.

Lemma v1_add_replaces_witness :
  let w := after (v1.AddHostname "example.com" (Some 1%positive))
                 {| manager := v1.NewVhostsManager; apps := ∅; trace := [] |} in
  result (GetHostname "example.com") (after (v1.AddHostname "example.com" (Some 2%positive)) w)
  = (Some 2%positive, true) ∧
  result (GetHostname "example.com") (after (v1.AddHostname "other.com" None) w)
  = (Some 1%positive, true).
Proof.
  intros w. split.
  - exact (proj1 (v1_add_replaces w "example.com" "" (Some 2%positive))).
  - destruct (v1_add_replaces w "other.com" "example.com" None) as (_ & Hother & _).
    rewrite Hother by done. vm_compute. reflexivity.
Defined.

(** X18. The dispatcher of the first version resolves by exact match only
    and reads the map under the shared lock: a request whose hostname has
    an entry with a non-nil application is served by that application and
    returns [nil]; a request whose hostname has no entry returns
    [fiber.ErrNotFound] and is served by nobody, whatever the wildcard map
    and the default handler hold; and the only mutex operations are
    [RLock] and [RUnlock], around the read. *)
Theorem v1_dispatch (w : World) (c : Ctx) :
  (∀ a : App, hosts (manager w) !! Hostname c = Some (Some a : AppPtr) →
     result (v1.VhostMiddleware c) w = returns nil_error ∧
     served (events (v1.VhostMiddleware c) w) = [(a, c)]) ∧
  (hosts (manager w) !! Hostname c = None →
     result (v1.VhostMiddleware c) w = returns ErrNotFound ∧
     served (events (v1.VhostMiddleware c) w) = []) ∧
  mutex_ops (events (v1.VhostMiddleware c) w) = [RLock; RUnlock] ∧
  guarded (events (v1.VhostMiddleware c) w) = true ∧
  manager (after (v1.VhostMiddleware c) w) = manager w ∧
  apps (after (v1.VhostMiddleware c) w) = apps w.
Proof.
  unfold result, events, after. rewrite v1_VhostMiddleware_run.
  destruct (hosts (manager w) !! Hostname c) as [[a|]|];
    cbn [fst snd logged trace manager apps]; rewrite drop_trace;
    split_and!; try done.
  - by intros ? [= ->].
Qed.

Lemma v1_dispatch_witness :
  let w := after (v1.AddHostname "example.com" (Some 1%positive))
                 {| manager := v1.NewVhostsManager; apps := ∅; trace := [] |} in
  result (v1.VhostMiddleware example_request) w = returns nil_error ∧
  result (v1.VhostMiddleware {| Hostname := "nonexistent.com"; request := 0 |}) w
  = returns ErrNotFound.
Proof.
  intros w. split.
  - destruct (v1_dispatch w example_request) as (Hhit & _).
    by destruct (Hhit 1%positive).
  - destruct (v1_dispatch w {| Hostname := "nonexistent.com"; request := 0 |})
      as (_ & Hmiss & _).
    by destruct Hmiss.
Defined.

(** X19. The later dispatcher agrees with the first one wherever the first
    one answers from the exact map alone: when the hostname has an exact
    entry with a non-nil application, and when it has no exact entry, no
    wildcard entry for what follows its leftmost label, and there is no
    default handler, the two return the same error value and invoke the
    same applications, whatever the logging flag. *)
Theorem dispatchers_agree (w : World) (c : Ctx) :
  ((∃ a : App, hosts (manager w) !! Hostname c = Some (Some a : AppPtr)) ∨
   (hosts (manager w) !! Hostname c = None ∧
    (∀ label rest,
       Hostname c = label +:+ "." +:+ rest → contains label dot = false →
       wildcards (manager w) !! rest = None) ∧
    defaultApp (manager w) = None)) →
  result (v1.VhostMiddleware c) w = returns (result (VhostMiddleware c) w) ∧
  served (events (v1.VhostMiddleware c) w) = served (events (VhostMiddleware c) w).
Proof.
  intros [[a Hh]|(Hh & Hw & Hd)].
  - assert (result (findMatchingApp (Hostname c)) w = Some a) as Hr
      by (unfold result; by rewrite findMatchingApp_run, Hh).
    destruct (VhostMiddleware_events_hit w c a Hr) as (-> & -> & _).
    unfold result, events, after. rewrite v1_VhostMiddleware_run, Hh.
    cbn [fst snd logged trace]. by rewrite drop_trace.
  - assert (result (findMatchingApp (Hostname c)) w = None) as Hr
      by (by rewrite findMatchingApp_no_match).
    destruct (VhostMiddleware_events_miss w c Hr) as (-> & -> & _).
    unfold result, events, after. rewrite v1_VhostMiddleware_run, Hh.
    cbn [fst snd logged trace]. by rewrite drop_trace.
Qed.

Lemma dispatchers_agree_witness :
  let w := after (AddHostname "example.com" (Some 1%positive)) (new_world [] ∅) in
  result (v1.VhostMiddleware example_request) w
  = returns (result (VhostMiddleware example_request) w).
Proof.
  intros w.
  destruct (dispatchers_agree w example_request) as (Hsame & _); [|exact Hsame].
  left. exists 1%positive. vm_compute. reflexivity.
Defined.
